(** * QRDFP-X: entropy freshness protocol and AES-256-GCM envelope pipeline

    A shallow embedding of the TypeScript sources of the repository:

    - [Platform]: the part of the JavaScript runtime the sources call
      (typed arrays, [btoa]/[atob], [TextEncoder]/[TextDecoder],
      [parseInt], [crypto.getRandomValues], [Date.prototype.toISOString],
      the engine's limit on the arguments of a call), written after the
      ECMAScript, WHATWG Infra and WHATWG Encoding standards;
    - [Crypto]: [lib/crypto.ts] (hex and base64 helpers, [deriveKey],
      [encryptMessage], [decryptMessage], [encryptFile], [decryptFile]);
    - [EntropyFn]: the MongoDB-backed edge function [functions/entropy]
      (ingestion by POST, issuance by GET), for requests handled one
      after the other ([run]) and for requests that overlap ([schedule]);
    - [EntropyMem]: the in-memory variant of the same edge function;
    - [EntropyCache]: [src/lib/entropy.ts], the client-side cache.

    WebCrypto's SHA-256, HKDF and AES-GCM are not code of the repository;
    they are the operations of a [SubtleCrypto] interface, and what is
    used about them ([SubtleCrypto_laws]: HKDF returns the length asked
    for, AES-GCM decryption inverts encryption under the same key and
    IV) is an explicit hypothesis wherever it is needed.  The properties
    are in the modules whose names end in [Facts]. *)

From Stdlib Require Import Strings.Ascii Strings.String.
From Stdlib Require Import ZArith List Bool Lia Strings.Byte.
Import ListNotations.

Local Open Scope Z_scope.

(* ===================================================================== *)
(** * The JavaScript platform *)
(* ===================================================================== *)

Module Platform.

(** A JavaScript string is a sequence of UTF-16 code units. *)
Definition code_unit := Z.
Definition jsstring := list code_unit.

(** A [Uint8Array] is a sequence of octets. *)
Definition Uint8Array := list byte.

(** Exceptions the modelled calls can raise. *)
Inductive exn : Type :=
| InvalidCharacterError   (* btoa / atob *)
| RangeError              (* a call with more arguments than the engine takes *)
| OperationError          (* crypto.subtle.decrypt: tag mismatch *)
| SyntaxError             (* crypto.subtle.importKey: bad usages *)
| InvalidAccessError.     (* crypto.subtle: key not usable for the call *)

(** A computation that returns or throws. *)
Inductive result (A : Type) : Type :=
| Ok (a : A)
| Throw (e : exn).
Arguments Ok {A} a.
Arguments Throw {A} e.

Definition bind {A B} (r : result A) (k : A -> result B) : result B :=
  match r with
  | Ok a => k a
  | Throw e => Throw e
  end.

Notation "x <- r ;; k" := (bind r (fun x => k))
  (at level 61, r at next level, right associativity).

(** Ranges: the value of an octet, of a base64 digit, and of a Unicode
    scalar value (a code point that is no surrogate). *)
Definition octet (z : Z) : Prop := 0 <= z < 256.
Definition sextet (z : Z) : Prop := 0 <= z < 64.
Definition scalar (cp : Z) : Prop := 0 <= cp < 1114112 /\ ~ (55296 <= cp <= 57343).

(** The numeric value of an octet. *)
Definition byte_val (b : byte) : Z := Z.of_N (Byte.to_N b).

(** ECMAScript [ToUint8]: storing an integer into a [Uint8Array] slot
    keeps it modulo 256. *)
Definition ToUint8 (z : Z) : byte :=
  match Byte.of_N (Z.to_N (z mod 256)) with
  | Some b => b
  | None => x00
  end.

(** [String.fromCharCode(c1, ..., cn)] on octets: one code unit per
    argument. *)
Definition fromCharCode (bytes : Uint8Array) : jsstring := map byte_val bytes.

(** The engine that runs the code.  A call [f(...array)] passes every
    element of the array as an argument, and an engine takes only so many
    arguments in one call: beyond its limit, which differs from engine
    to engine (some tens or hundreds of thousands, a fixed number or
    what the stack holds at the place of the call), the call throws a
    [RangeError].  All that is taken for granted of the limit is that
    the 32 octets of a salt are within it. *)
Class Engine : Type := {
  max_arguments : Z;
  max_arguments_min : 32 <= max_arguments
}.

(** [crypto.getRandomValues]: the generator is a stream of octets read
    from a cursor; every call consumes the octets it returns. *)
Record Rng : Type := mkRng { rng_stream : nat -> byte; rng_pos : nat }.

Definition rng_window (r : Rng) (off n : nat) : Uint8Array :=
  map (rng_stream r) (seq (rng_pos r + off) n).

Definition advance (r : Rng) (n : nat) : Rng :=
  mkRng (rng_stream r) (rng_pos r + n).

Definition getRandomValues (n : nat) (r : Rng) : Uint8Array * Rng :=
  (rng_window r 0 n, advance r n).

(** ** Hexadecimal digits *)

(** The code unit of the lower-case hexadecimal digit of value [d]. *)
Definition hex_digit (d : Z) : code_unit :=
  if d <? 10 then 48 + d else 87 + d.

(** [Number.prototype.toString(16)] on an octet value: one or two
    lower-case digits, no leading zero. *)
Definition toString16 (n : Z) : jsstring :=
  if n <? 16 then [hex_digit n] else [hex_digit (n / 16); hex_digit (n mod 16)].

(** [String.prototype.padStart(2, "0")]. *)
Definition padStart2 (s : jsstring) : jsstring :=
  match s with
  | [] => [48; 48]
  | [c] => [48; c]
  | _ => s
  end.

(** [Array.from(bytes).map((b) => b.toString(16).padStart(2, "0")).join("")],
    the expression every source file uses to print octets. *)
Definition toHex (bytes : Uint8Array) : jsstring :=
  flat_map (fun b => padStart2 (toString16 (byte_val b))) bytes.

(** The value of a hexadecimal digit (either case), if it is one. *)
Definition hex_value (c : code_unit) : option Z :=
  if (48 <=? c) && (c <=? 57) then Some (c - 48)
  else if (97 <=? c) && (c <=? 102) then Some (c - 87)
  else if (65 <=? c) && (c <=? 70) then Some (c - 55)
  else None.

(** ECMAScript [StrWhiteSpaceChar]: white space and line terminators,
    which [parseInt] skips at the start of its input. *)
Definition is_StrWhiteSpaceChar (c : code_unit) : bool :=
  (c =? 9) || (c =? 10) || (c =? 11) || (c =? 12) || (c =? 13) || (c =? 32)
  || (c =? 160) || (c =? 5760) || ((8192 <=? c) && (c <=? 8202))
  || (c =? 8232) || (c =? 8233) || (c =? 8239) || (c =? 8287)
  || (c =? 12288) || (c =? 65279).

(** [parseInt(s, 16)]: [None] is NaN.  White space is skipped, one sign
    is read, one "0x"/"0X" prefix is dropped, and the longest run of
    hexadecimal digits that follows is the magnitude. *)
Fixpoint skip_ws (s : jsstring) : jsstring :=
  match s with
  | c :: s' => if is_StrWhiteSpaceChar c then skip_ws s' else s
  | [] => []
  end.

Fixpoint hex_run (acc : Z) (seen : bool) (s : jsstring) : option Z :=
  match s with
  | c :: s' =>
      match hex_value c with
      | Some d => hex_run (16 * acc + d) true s'
      | None => if seen then Some acc else None
      end
  | [] => if seen then Some acc else None
  end.

Definition strip_0x (s : jsstring) : jsstring :=
  match s with
  | 48 :: 120 :: s' => s'
  | 48 :: 88 :: s' => s'
  | _ => s
  end.

Definition parseInt16 (s : jsstring) : option Z :=
  let s := skip_ws s in
  let '(sign, s) :=
    match s with
    | 45 :: s' => (-1, s')
    | 43 :: s' => (1, s')
    | _ => (1, s)
    end in
  option_map (Z.mul sign) (hex_run 0 false (strip_0x s)).

(** Storing a number into a [Uint8Array] slot: NaN is stored as 0. *)
Definition store_uint8 (v : option Z) : byte :=
  match v with
  | Some z => ToUint8 z
  | None => x00
  end.

(** ** Base64: [btoa] and [atob] *)

(** The base64 alphabet (RFC 4648, table 1). *)
Definition b64_char (v : Z) : code_unit :=
  if v <? 26 then 65 + v
  else if v <? 52 then 71 + v
  else if v <? 62 then v - 4
  else if v =? 62 then 43
  else 47.

Definition b64_value (c : code_unit) : option Z :=
  if (65 <=? c) && (c <=? 90) then Some (c - 65)
  else if (97 <=? c) && (c <=? 122) then Some (c - 71)
  else if (48 <=? c) && (c <=? 57) then Some (c + 4)
  else if c =? 43 then Some 62
  else if c =? 47 then Some 63
  else None.

Definition b64_pad : code_unit := 61.

(** Octets to base64 characters, three octets to four characters, the
    last group padded with "=". *)
Fixpoint b64_encode (l : list Z) : jsstring :=
  match l with
  | [] => []
  | [a] => [b64_char (a / 4); b64_char (a mod 4 * 16); b64_pad; b64_pad]
  | [a; b] =>
      [b64_char (a / 4); b64_char (a mod 4 * 16 + b / 16);
       b64_char (b mod 16 * 4); b64_pad]
  | a :: b :: c :: rest =>
      b64_char (a / 4) :: b64_char (a mod 4 * 16 + b / 16)
      :: b64_char (b mod 16 * 4 + c / 64) :: b64_char (c mod 64)
      :: b64_encode rest
  end.

(** The same encoding in two parts: the sextets of the octets, and the
    padding. *)
Fixpoint sextets (l : list Z) : list Z :=
  match l with
  | [] => []
  | [a] => [a / 4; a mod 4 * 16]
  | [a; b] => [a / 4; a mod 4 * 16 + b / 16; b mod 16 * 4]
  | a :: b :: c :: rest =>
      a / 4 :: (a mod 4 * 16 + b / 16) :: (b mod 16 * 4 + c / 64) :: c mod 64
      :: sextets rest
  end.

Fixpoint pads (l : list Z) : list Z :=
  match l with
  | [] => []
  | [_] => [b64_pad; b64_pad]
  | [_; _] => [b64_pad]
  | _ :: _ :: _ :: rest => pads rest
  end.

(** [btoa(s)]: throws when a code unit is above 0xFF. *)
Definition btoa (s : jsstring) : result jsstring :=
  if forallb (fun c => (0 <=? c) && (c <=? 255)) s
  then Ok (b64_encode s)
  else Throw InvalidCharacterError.

(** WHATWG Infra, forgiving-base64 decode. *)
Definition is_ascii_whitespace (c : code_unit) : bool :=
  (c =? 9) || (c =? 10) || (c =? 12) || (c =? 13) || (c =? 32).

(** When the length is a multiple of four, one or two "=" at the end
    are removed. *)
Definition strip_padding (s : jsstring) : jsstring :=
  if Z.of_nat (length s) mod 4 =? 0 then
    match rev s with
    | c1 :: r1 =>
        if c1 =? b64_pad then
          match r1 with
          | c2 :: r2 => if c2 =? b64_pad then rev r2 else rev r1
          | [] => rev r1
          end
        else s
    | [] => s
    end
  else s.

Fixpoint b64_values (s : jsstring) : option (list Z) :=
  match s with
  | [] => Some []
  | c :: s' =>
      match b64_value c, b64_values s' with
      | Some v, Some vs => Some (v :: vs)
      | _, _ => None
      end
  end.

(** Sextets to octets: 24 bits give three octets; a final 12 bits give
    one octet (4 bits dropped), a final 18 bits two (2 bits dropped). *)
Fixpoint b64_decode (l : list Z) : list Z :=
  match l with
  | a :: b :: c :: d :: rest =>
      (a * 4 + b / 16) :: (b mod 16 * 16 + c / 4) :: (c mod 4 * 64 + d)
      :: b64_decode rest
  | [a; b; c] => [a * 4 + b / 16; b mod 16 * 16 + c / 4]
  | [a; b] => [a * 4 + b / 16]
  | _ => []
  end.

Definition atob (s : jsstring) : result jsstring :=
  let data := strip_padding (filter (fun c => negb (is_ascii_whitespace c)) s) in
  if Z.of_nat (length data) mod 4 =? 1 then Throw InvalidCharacterError
  else match b64_values data with
       | Some vs => Ok (b64_decode vs)
       | None => Throw InvalidCharacterError
       end.

(** ** UTF-8: [TextEncoder] and [TextDecoder] *)

Definition is_lead_surrogate (c : code_unit) : bool := (55296 <=? c) && (c <=? 56319).
Definition is_trail_surrogate (c : code_unit) : bool := (56320 <=? c) && (c <=? 57343).

Definition REPLACEMENT : Z := 65533.
Definition BOM : Z := 65279.

(** Web IDL, conversion of a string to a [USVString]: a surrogate pair is
    one scalar value, an unpaired surrogate becomes U+FFFD. *)
Fixpoint to_scalars (s : jsstring) : list Z :=
  match s with
  | [] => []
  | c :: rest =>
      if is_lead_surrogate c then
        match rest with
        | d :: rest' =>
            if is_trail_surrogate d
            then (65536 + (c - 55296) * 1024 + (d - 56320)) :: to_scalars rest'
            else REPLACEMENT :: to_scalars rest
        | [] => [REPLACEMENT]
        end
      else if is_trail_surrogate c then REPLACEMENT :: to_scalars rest
      else c :: to_scalars rest
  end.

(** [String.prototype.isWellFormed]: every code unit is a 16-bit value
    and every surrogate is half of a pair. *)
Fixpoint isWellFormed (s : jsstring) : bool :=
  match s with
  | [] => true
  | c :: rest =>
      if is_lead_surrogate c then
        match rest with
        | d :: rest' => is_trail_surrogate d && isWellFormed rest'
        | [] => false
        end
      else negb (is_trail_surrogate c) && (0 <=? c) && (c <? 65536)
           && isWellFormed rest
  end.

(** A code point as UTF-16 code units. *)
Definition utf16_units (cp : Z) : jsstring :=
  if cp <? 65536 then [cp]
  else [55296 + (cp - 65536) / 1024; 56320 + (cp - 65536) mod 1024].

(** WHATWG Encoding, UTF-8 encoder. *)
Definition utf8_bytes (cp : Z) : list Z :=
  if cp <? 128 then [cp]
  else if cp <? 2048 then [192 + cp / 64; 128 + cp mod 64]
  else if cp <? 65536 then
    [224 + cp / 4096; 128 + cp / 64 mod 64; 128 + cp mod 64]
  else
    [240 + cp / 262144; 128 + cp / 4096 mod 64; 128 + cp / 64 mod 64;
     128 + cp mod 64].

(** [new TextEncoder().encode(s)]. *)
Definition TextEncoder_encode (s : jsstring) : Uint8Array :=
  map ToUint8 (flat_map utf8_bytes (to_scalars s)).

(** WHATWG Encoding, UTF-8 decoder: its state, and its handler for one
    byte. *)
Record utf8_state : Type := mkUtf8 {
  code_point : Z;
  bytes_seen : Z;
  bytes_needed : Z;
  lower_boundary : Z;
  upper_boundary : Z
}.

Definition utf8_init : utf8_state := mkUtf8 0 0 0 128 191.

(** The handler when no sequence is open (bytes needed is 0). *)
Definition utf8_start (b : Z) : list Z * utf8_state :=
  if b <=? 127 then ([b], utf8_init)
  else if (194 <=? b) && (b <=? 223) then ([], mkUtf8 (b - 192) 0 1 128 191)
  else if (224 <=? b) && (b <=? 239) then
    ([], mkUtf8 (b - 224) 0 2
           (if b =? 224 then 160 else 128) (if b =? 237 then 159 else 191))
  else if (240 <=? b) && (b <=? 244) then
    ([], mkUtf8 (b - 240) 0 3
           (if b =? 240 then 144 else 128) (if b =? 244 then 143 else 191))
  else ([REPLACEMENT], utf8_init).

(** The handler in general.  A byte outside the boundaries of an open
    sequence is an error, and the byte is read again with no sequence
    open. *)
Definition utf8_step (st : utf8_state) (b : Z) : list Z * utf8_state :=
  if bytes_needed st =? 0 then utf8_start b
  else if (lower_boundary st <=? b) && (b <=? upper_boundary st) then
    let cp := code_point st * 64 + (b - 128) in
    if bytes_seen st + 1 =? bytes_needed st then ([cp], utf8_init)
    else ([], mkUtf8 cp (bytes_seen st + 1) (bytes_needed st) 128 191)
  else
    let '(out, st') := utf8_start b in (REPLACEMENT :: out, st').

Fixpoint utf8_decode (st : utf8_state) (bytes : list Z) : list Z :=
  match bytes with
  | [] => if bytes_needed st =? 0 then [] else [REPLACEMENT]
  | b :: rest =>
      let '(out, st') := utf8_step st b in out ++ utf8_decode st' rest
  end.

(** With the default [ignoreBOM = false] a leading U+FEFF is dropped. *)
Definition drop_BOM (cps : list Z) : list Z :=
  match cps with
  | c :: rest => if c =? BOM then rest else cps
  | [] => []
  end.

(** [new TextDecoder().decode(bytes)]. *)
Definition TextDecoder_decode (bytes : Uint8Array) : jsstring :=
  flat_map utf16_units (drop_BOM (utf8_decode utf8_init (map byte_val bytes))).

(** A string literal of the source (ASCII) as a JavaScript string. *)
Definition js (s : string) : jsstring :=
  map (fun a => Z.of_N (N_of_ascii a)) (list_ascii_of_string s).

(** ** Dates *)

(** ECMAScript time values are milliseconds since 1970-01-01T00:00Z.
    [Day], [DayFromYear], [YearFromTime], [InLeapYear], [MonthFromTime],
    [DateFromTime] and the rest are the abstract operations of the
    standard (Time Values and Time Range; Year, Month and Date Number;
    Hours, Minutes, Second and Milliseconds); division rounds down. *)
Definition msPerDay : Z := 86400000.
Definition Day (t : Z) : Z := t / msPerDay.

(** The day number of the first day of year [y]. *)
Definition DayFromYear (y : Z) : Z :=
  365 * (y - 1970) + (y - 1969) / 4 - (y - 1901) / 100 + (y - 1601) / 400.

(** The year a day falls in, "the largest [y] such that
    [DayFromYear y <= d]": an estimate from the mean length of a year,
    which is at most one year off, put right by comparison. *)
Definition YearFromDay (d : Z) : Z :=
  let y := 1970 + (d * 400) / 146097 in
  if DayFromYear (y + 1) <=? d then y + 1
  else if DayFromYear y <=? d then y
  else y - 1.

Definition YearFromTime (t : Z) : Z := YearFromDay (Day t).

Definition InLeapYear (y : Z) : bool :=
  (y mod 4 =? 0) && (negb (y mod 100 =? 0) || (y mod 400 =? 0)).

Definition DayWithinYear (t : Z) : Z := Day t - DayFromYear (YearFromTime t).

(** The month (0 for January) of the day [dwy] of a year, [leap] being 1
    for a leap year and 0 otherwise; and the day of that month. *)
Definition month_of (dwy leap : Z) : Z :=
  if dwy <? 31 then 0
  else if dwy <? 59 + leap then 1
  else if dwy <? 90 + leap then 2
  else if dwy <? 120 + leap then 3
  else if dwy <? 151 + leap then 4
  else if dwy <? 181 + leap then 5
  else if dwy <? 212 + leap then 6
  else if dwy <? 243 + leap then 7
  else if dwy <? 273 + leap then 8
  else if dwy <? 304 + leap then 9
  else if dwy <? 334 + leap then 10
  else 11.

Definition date_of (dwy leap : Z) : Z :=
  match month_of dwy leap with
  | 0 => dwy + 1
  | 1 => dwy - 30
  | 2 => dwy - 58 - leap
  | 3 => dwy - 89 - leap
  | 4 => dwy - 119 - leap
  | 5 => dwy - 150 - leap
  | 6 => dwy - 180 - leap
  | 7 => dwy - 211 - leap
  | 8 => dwy - 242 - leap
  | 9 => dwy - 272 - leap
  | 10 => dwy - 303 - leap
  | _ => dwy - 333 - leap
  end.

Definition leap_days (t : Z) : Z := if InLeapYear (YearFromTime t) then 1 else 0.
Definition MonthFromTime (t : Z) : Z := month_of (DayWithinYear t) (leap_days t).
Definition DateFromTime (t : Z) : Z := date_of (DayWithinYear t) (leap_days t).
Definition HourFromTime (t : Z) : Z := (t / 3600000) mod 24.
Definition MinFromTime (t : Z) : Z := (t / 60000) mod 60.
Definition SecFromTime (t : Z) : Z := (t / 1000) mod 60.
Definition msFromTime (t : Z) : Z := t mod 1000.

(** [n] written with [w] decimal digits. *)
Fixpoint digits (w : nat) (n : Z) : jsstring :=
  match w with
  | O => []
  | S w' => (48 + n / 10 ^ Z.of_nat w') :: digits w' (n mod 10 ^ Z.of_nat w')
  end.

(** The year of an ISO text: four digits from 0000 to 9999, otherwise a
    sign and six digits. *)
Definition year_text (y : Z) : jsstring :=
  if (0 <=? y) && (y <=? 9999) then digits 4 y
  else (if 0 <=? y then 43 else 45) :: digits 6 (Z.abs y).

(** [new Date(t).toISOString()], for a time value [t]:
    [YYYY-MM-DDTHH:mm:ss.sssZ]. *)
Definition toISOString (t : Z) : jsstring :=
  year_text (YearFromTime t)
  ++ 45 :: digits 2 (MonthFromTime t + 1)
  ++ 45 :: digits 2 (DateFromTime t)
  ++ 84 :: digits 2 (HourFromTime t)
  ++ 58 :: digits 2 (MinFromTime t)
  ++ 58 :: digits 2 (SecFromTime t)
  ++ 46 :: digits 3 (msFromTime t) ++ [90].

(** The time values whose ISO text has a four-digit year: from
    0000-01-01T00:00:00.000Z to 9999-12-31T23:59:59.999Z. *)
Definition four_digit_year (t : Z) : Prop :=
  -62167219200000 <= t < 253402300800000.

End Platform.

(* ===================================================================== *)
(** * lib/crypto.ts: key derivation and the AES-256-GCM envelope *)
(* ===================================================================== *)

Module Crypto.
Import Platform.

(** ** The WebCrypto interface *)

Inductive KeyAlgorithm : Type := HKDF | AES_GCM.

Inductive KeyUsage : Type := encrypt | decrypt | deriveKey_usage | deriveBits.

Definition KeyUsage_eqb (a b : KeyUsage) : bool :=
  match a, b with
  | encrypt, encrypt | decrypt, decrypt
  | deriveKey_usage, deriveKey_usage | deriveBits, deriveBits => true
  | _, _ => false
  end.

Definition KeyAlgorithm_eqb (a b : KeyAlgorithm) : bool :=
  match a, b with
  | HKDF, HKDF | AES_GCM, AES_GCM => true
  | _, _ => false
  end.

(** A [CryptoKey]: the algorithm it is for, its secret octets (which
    calling code cannot read when [key_extractable] is false), and what
    it may be used for. *)
Record CryptoKey : Type := mkKey {
  key_algorithm : KeyAlgorithm;
  key_bytes : Uint8Array;
  key_extractable : bool;
  key_usages : list KeyUsage
}.

(** The primitives behind [crypto.subtle]: the SHA-256 digest,
    HKDF-SHA-256 (input key material, salt, info, output length in
    octets) and AES-GCM with a 128-bit tag (key, IV, data). *)
Class SubtleCrypto : Type := {
  SHA256 : Uint8Array -> Uint8Array;
  HKDF_SHA256 : Uint8Array -> Uint8Array -> Uint8Array -> nat -> Uint8Array;
  AES_GCM_encrypt : Uint8Array -> Uint8Array -> Uint8Array -> Uint8Array;
  AES_GCM_decrypt : Uint8Array -> Uint8Array -> Uint8Array -> option Uint8Array
}.

(** What is assumed of the primitives: HKDF returns as many octets as
    it is asked for, and under the same 256-bit key and 96-bit IV
    AES-GCM decryption accepts what encryption produced and returns the
    plaintext. *)
Record SubtleCrypto_laws (sc : SubtleCrypto) : Prop := {
  HKDF_length :
    forall ikm salt info n, length (HKDF_SHA256 ikm salt info n) = n;
  AEAD_correct :
    forall k iv p,
      length k = 32%nat -> length iv = 12%nat ->
      AES_GCM_decrypt k iv (AES_GCM_encrypt k iv p) = Some p
}.

(** Computations that draw random octets and may throw. *)
Definition M (A : Type) : Type := Rng -> result A * Rng.

Definition ret {A} (a : A) : M A := fun r => (Ok a, r).

Definition bindM {A B} (m : M A) (k : A -> M B) : M B :=
  fun r =>
    match m r with
    | (Ok a, r') => k a r'
    | (Throw e, r') => (Throw e, r')
    end.

Definition lift {A} (x : result A) : M A := fun r => (x, r).

Definition random (n : nat) : M Uint8Array :=
  fun r => let '(b, r') := getRandomValues n r in (Ok b, r').

Notation "x <~ m ;; k" := (bindM m (fun x => k))
  (at level 61, m at next level, right associativity).

Section Subtle.
Context {sc : SubtleCrypto} {eng : Engine}.

(** [crypto.subtle.importKey("raw", keyData, "HKDF", extractable, usages)]
    (W3C Web Cryptography API, HKDF, Import Key): the usages must be
    among [deriveKey] and [deriveBits], the key must not be extractable,
    a secret key needs a usage.  The key data is taken as it is, of any
    length. *)
Definition importKey_raw_HKDF (keyData : Uint8Array) (extractable : bool)
    (usages : list KeyUsage) : result CryptoKey :=
  if negb (forallb (fun u => KeyUsage_eqb u deriveKey_usage || KeyUsage_eqb u deriveBits) usages)
  then Throw SyntaxError
  else if extractable then Throw SyntaxError
  else match usages with
       | [] => Throw SyntaxError
       | _ => Ok (mkKey HKDF keyData false usages)
       end.

(** [crypto.subtle.deriveKey({name: "HKDF", hash: "SHA-256", salt, info},
    baseKey, {name: "AES-GCM", length: 256}, extractable, usages)]. *)
Definition deriveKey_HKDF_AES256 (salt info : Uint8Array) (baseKey : CryptoKey)
    (extractable : bool) (usages : list KeyUsage) : result CryptoKey :=
  if negb (KeyAlgorithm_eqb (key_algorithm baseKey) HKDF) then Throw InvalidAccessError
  else if negb (existsb (KeyUsage_eqb deriveKey_usage) (key_usages baseKey))
  then Throw InvalidAccessError
  else if negb (forallb (fun u => KeyUsage_eqb u encrypt || KeyUsage_eqb u decrypt) usages)
  then Throw SyntaxError
  else match usages with
       | [] => Throw SyntaxError
       | _ => Ok (mkKey AES_GCM (HKDF_SHA256 (key_bytes baseKey) salt info 32)
                        extractable usages)
       end.

(** [crypto.subtle.encrypt({name: "AES-GCM", iv}, key, data)]. *)
Definition subtle_encrypt (iv : Uint8Array) (key : CryptoKey) (data : Uint8Array)
    : result Uint8Array :=
  if KeyAlgorithm_eqb (key_algorithm key) AES_GCM
     && existsb (KeyUsage_eqb encrypt) (key_usages key)
  then Ok (AES_GCM_encrypt (key_bytes key) iv data)
  else Throw InvalidAccessError.

(** [crypto.subtle.decrypt({name: "AES-GCM", iv}, key, data)]: a tag
    that does not verify is an [OperationError]. *)
Definition subtle_decrypt (iv : Uint8Array) (key : CryptoKey) (data : Uint8Array)
    : result Uint8Array :=
  if KeyAlgorithm_eqb (key_algorithm key) AES_GCM
     && existsb (KeyUsage_eqb decrypt) (key_usages key)
  then match AES_GCM_decrypt (key_bytes key) iv data with
       | Some p => Ok p
       | None => Throw OperationError
       end
  else Throw InvalidAccessError.

(** ** The helpers of crypto.ts *)

(** [hexToBytes]: the buffer has [hex.length / 2] slots (the fraction of
    an odd length is dropped by [ToIndex]); slot [i / 2] receives
    [parseInt] of the two characters at [i]; the write of a last single
    character falls outside the buffer and is ignored. *)
Fixpoint hexToBytes (hex : jsstring) : Uint8Array :=
  match hex with
  | c1 :: c2 :: rest => store_uint8 (parseInt16 [c1; c2]) :: hexToBytes rest
  | _ => []
  end.

(** [toArrayBuffer]: a copy of the octets in a fresh buffer. *)
Definition toArrayBuffer (arr : Uint8Array) : Uint8Array := arr.

(** [bytesToHex]. *)
Definition bytesToHex (bytes : Uint8Array) : jsstring := toHex bytes.

(** [bytesToBase64].  [String.fromCharCode(...bytes)] passes every octet
    as an argument of one call, which throws when there are more of them
    than the engine takes. *)
Definition bytesToBase64 (bytes : Uint8Array) : result jsstring :=
  if Z.of_nat (length bytes) <=? max_arguments
  then btoa (fromCharCode bytes)
  else Throw RangeError.

(** [base64ToBytes]: the characters of [atob(b64)], each stored into a
    slot of a new array. *)
Definition base64ToBytes (b64 : jsstring) : result Uint8Array :=
  chars <- atob b64 ;; Ok (map ToUint8 chars).

(** ** Key derivation *)

Record DerivedKey : Type := mkDerived { dk_key : CryptoKey; dk_salt : Uint8Array }.

(** The HKDF info parameter, [new TextEncoder().encode("QRNG-SecureComms-v1")]. *)
Definition HKDF_info : Uint8Array :=
  toArrayBuffer (TextEncoder_encode (js "QRNG-SecureComms-v1")).

(** [deriveKey(entropyHex, salt?)].  A typed array is truthy whatever
    its length, so [salt ? .. : ..] tests only whether one was passed. *)
Definition deriveKey (entropyHex : jsstring) (salt : option Uint8Array) : M DerivedKey :=
  let ikm := hexToBytes entropyHex in
  rawSalt <~ match salt with
             | Some s => ret (toArrayBuffer s)
             | None => b <~ random 32 ;; ret (toArrayBuffer b)
             end ;;
  keyMaterial <~ lift (importKey_raw_HKDF ikm false [deriveKey_usage]) ;;
  key <~ lift (deriveKey_HKDF_AES256 rawSalt HKDF_info keyMaterial false
                 [encrypt; decrypt]) ;;
  ret (mkDerived key rawSalt).

(** ** Messages *)

Record Envelope : Type := mkEnvelope {
  ciphertext : jsstring;
  iv : jsstring;
  salt : jsstring
}.

(** [encryptMessage(plaintext, entropyHex)]. *)
Definition encryptMessage (plaintext entropyHex : jsstring) : M Envelope :=
  dk <~ deriveKey entropyHex None ;;
  ivBytes <~ (b <~ random 12 ;; ret (toArrayBuffer b)) ;;
  let encoded := toArrayBuffer (TextEncoder_encode plaintext) in
  cipherBuffer <~ lift (subtle_encrypt ivBytes (dk_key dk) encoded) ;;
  c <~ lift (bytesToBase64 cipherBuffer) ;;
  i <~ lift (bytesToBase64 ivBytes) ;;
  s <~ lift (bytesToBase64 (dk_salt dk)) ;;
  ret (mkEnvelope c i s).

(** [decryptMessage(ciphertext, ivB64, saltB64, entropyHex)]. *)
Definition decryptMessage (ciphertextB64 ivB64 saltB64 entropyHex : jsstring)
    : M jsstring :=
  saltBytes <~ lift (base64ToBytes saltB64) ;;
  dk <~ deriveKey entropyHex (Some saltBytes) ;;
  ivBytes <~ lift (base64ToBytes ivB64) ;;
  cipherBytes <~ lift (base64ToBytes ciphertextB64) ;;
  plainBuffer <~ lift (subtle_decrypt ivBytes (dk_key dk) cipherBytes) ;;
  ret (TextDecoder_decode plainBuffer).

(** ** Files *)

Record FileEnvelope : Type := mkFileEnvelope {
  encryptedBlob : Uint8Array;
  file_iv : jsstring;
  file_salt : jsstring
}.

(** [encryptFile(file, entropyHex)]: [file] is the content of the file. *)
Definition encryptFile (file : Uint8Array) (entropyHex : jsstring) : M FileEnvelope :=
  dk <~ deriveKey entropyHex None ;;
  ivBytes <~ (b <~ random 12 ;; ret (toArrayBuffer b)) ;;
  cipherBuffer <~ lift (subtle_encrypt ivBytes (dk_key dk) file) ;;
  i <~ lift (bytesToBase64 ivBytes) ;;
  s <~ lift (bytesToBase64 (dk_salt dk)) ;;
  ret (mkFileEnvelope cipherBuffer i s).

(** [decryptFile(encryptedBlob, ivB64, saltB64, entropyHex)]; the MIME
    type of the result is not modelled. *)
Definition decryptFile (blob : Uint8Array) (ivB64 saltB64 entropyHex : jsstring)
    : M Uint8Array :=
  saltBytes <~ lift (base64ToBytes saltB64) ;;
  dk <~ deriveKey entropyHex (Some saltBytes) ;;
  ivBytes <~ lift (base64ToBytes ivB64) ;;
  lift (subtle_decrypt ivBytes (dk_key dk) blob).

(** ** What the properties speak of *)

(** The base64 text of a byte array. *)
Definition enc64 (b : Uint8Array) : jsstring := b64_encode (map byte_val b).

(** The key [deriveKey] returns for entropy [e] and salt [s]. *)
Definition derived (e : jsstring) (s : Uint8Array) : DerivedKey :=
  mkDerived (mkKey AES_GCM (HKDF_SHA256 (hexToBytes e) s HKDF_info 32) false
                   [encrypt; decrypt]) s.

(** The cipher text [encryptMessage] computes for [p] under [e] with the
    generator at [r], before it is written in base64: AES-GCM of the
    UTF-8 octets of [p], under the key derived with the first 32 octets
    drawn as salt and with the next 12 as IV. *)
Definition message_cipher (p e : jsstring) (r : Rng) : Uint8Array :=
  AES_GCM_encrypt (HKDF_SHA256 (hexToBytes e) (rng_window r 0 32) HKDF_info 32)
                  (rng_window r 32 12) (TextEncoder_encode p).

(** The cipher text, IV and salt of the envelope made from [p] under [e]
    decrypt, under [e], to [p], whatever the state of the generator
    where the decryption runs. *)
Definition round_trip (p e : jsstring) (r : Rng) : Prop :=
  exists env r',
    encryptMessage p e r = (Ok env, r') /\
    forall r2,
      decryptMessage (ciphertext env) (iv env) (salt env) e r2 = (Ok p, r2).

End Subtle.

(** The string begins with U+FEFF. *)
Definition starts_with_BOM (s : jsstring) : bool :=
  match s with
  | c :: _ => c =? BOM
  | [] => false
  end.

(** An entropy value as the issuance endpoint prints it: 64 hexadecimal
    digits, for 32 octets. *)
Definition is_entropy_hex (e : jsstring) : bool :=
  Nat.eqb (length e) 64
  && forallb (fun c => match hex_value c with Some _ => true | None => false end) e.

(** A small instance of the interface, used to run the definitions: the
    derived key is a prefix of the concatenated inputs, and the cipher
    appends a one-octet tag computed from the key and the IV. *)
Definition demo_tag (k iv : Uint8Array) : byte :=
  ToUint8 (fold_right (fun b acc => byte_val b + 3 * acc) 7 (k ++ iv)).

Definition demo_subtle : SubtleCrypto := {|
  SHA256 := fun m => firstn 32 (m ++ repeat x00 32);
  HKDF_SHA256 := fun ikm salt info n => firstn n (ikm ++ salt ++ info ++ repeat x00 n);
  AES_GCM_encrypt := fun k iv p => p ++ [demo_tag k iv];
  AES_GCM_decrypt := fun k iv c =>
    match rev c with
    | t :: r => if Byte.eqb t (demo_tag k iv) then Some (rev r) else None
    | [] => None
    end
|}.

(** An engine that takes 65535 arguments in a call. *)
Definition demo_engine : Engine := {|
  max_arguments := 65535;
  max_arguments_min := ltac:(lia)
|}.

End Crypto.

(* ===================================================================== *)
(** * functions/entropy (MongoDB): ingestion and issuance *)
(* ===================================================================== *)

Module EntropyFn.
Import Platform.

Definition ENTROPY_BYTES : Z := 32.
Definition ENTROPY_MAX_AGE_MS : Z := 30000.

Inductive EntropySource : Type := hardware | software.

Definition EntropySource_eqb (a b : EntropySource) : bool :=
  match a, b with
  | hardware, hardware | software, software => true
  | _, _ => false
  end.

Fixpoint jsstring_eqb (a b : jsstring) : bool :=
  match a, b with
  | [], [] => true
  | x :: a', y :: b' => (x =? y) && jsstring_eqb a' b'
  | _, _ => false
  end.

(** The order of strings in a MongoDB filter or sort (no collation is
    set, so the comparison is binary): by the first character that
    differs, a proper prefix coming first. *)
Fixpoint text_compare (a b : jsstring) : comparison :=
  match a, b with
  | [], [] => Eq
  | [], _ :: _ => Lt
  | _ :: _, [] => Gt
  | x :: a', y :: b' =>
      match x ?= y with
      | Eq => text_compare a' b'
      | c => c
      end
  end.

Definition text_leb (a b : jsstring) : bool :=
  match text_compare a b with
  | Gt => false
  | _ => true
  end.

Definition text_ltb (a b : jsstring) : bool :=
  match text_compare a b with
  | Lt => true
  | _ => false
  end.

(** A document of the [entropy_log] collection.  The field [created_at]
    of the stored document is the text [new Date().toISOString()]; the
    record keeps the time value that text is printed from, and the text
    is [toISOString (created_at d)] wherever the code compares, sorts or
    returns it.  [doc_id] stands for the [_id] the driver assigns on
    insertion, which the code never chooses and uses only to name, in
    [updateOne], the document it has just read. *)
Record Doc : Type := mkDoc {
  doc_id : nat;
  entropy_hex : jsstring;
  source : EntropySource;
  used : bool;
  created_at : Z
}.

(** The collection, in insertion order; documents are never deleted. *)
Definition Collection := list Doc.

(** [col.findOne({ entropy_hex })]. *)
Definition findOne_hex (col : Collection) (hex : jsstring) : option Doc :=
  find (fun d => jsstring_eqb (entropy_hex d) hex) col.

(** [col.insertOne({ entropy_hex, source, used, created_at })]: the new
    document gets an [_id] no other document has; here the number of
    documents inserted before it. *)
Definition insertOne (col : Collection) (hex : jsstring) (src : EntropySource)
    (u : bool) (t : Z) : Collection :=
  col ++ [mkDoc (length col) hex src u t].

(** The filter [{ used: false, source: "hardware", created_at: { $gte: cutoff } }],
    [cutoff] being the time value whose ISO text the code passes: the
    two texts are compared, as strings. *)
Definition eligible (cutoff : Z) (d : Doc) : bool :=
  negb (used d) && EntropySource_eqb (source d) hardware
  && text_leb (toISOString cutoff) (toISOString (created_at d)).

(** The first document in the order [{ created_at: -1 }]: one whose
    [created_at] text is greatest (the earliest inserted of them). *)
Fixpoint newest (l : list Doc) : option Doc :=
  match l with
  | [] => None
  | d :: l' =>
      match newest l' with
      | Some d' =>
          if text_ltb (toISOString (created_at d)) (toISOString (created_at d'))
          then Some d' else Some d
      | None => Some d
      end
  end.

(** [col.findOne(filter, { sort: { created_at: -1 } })]. *)
Definition findOne_fresh (col : Collection) (cutoff : Z) : option Doc :=
  newest (filter (eligible cutoff) col).

(** [col.updateOne({ _id }, { $set: { used: true } })]: the first
    document with that [_id] is updated. *)
Fixpoint updateOne_used (col : Collection) (id : nat) : Collection :=
  match col with
  | [] => []
  | d :: l =>
      if Nat.eqb (doc_id d) id
      then mkDoc (doc_id d) (entropy_hex d) (source d) true (created_at d) :: l
      else d :: updateOne_used l id
  end.

(** ** Requests and responses *)

Inductive Request : Type :=
| OPTIONS
| POST (body : Uint8Array)
| GET
| OtherMethod.

(** The JSON bodies the handler sends. *)
Inductive Body : Type :=
| NoBody
| InvalidEntropySize (got : Z)       (* { error: "Invalid entropy size: ..." } *)
| ReplayedEntropy                    (* { error: "Entropy replay detected. Rejected." } *)
| EntropyAccepted (bytes : Z)        (* { success: true, message, bytes } *)
| Issued (src : EntropySource) (hex : jsstring) (timestamp : Z)
| ServerError                        (* { error: String(err) } *)
| MethodNotAllowed.

Record Response : Type := mkResponse { status : Z; body : Body }.

(** What a request finds outside the handler: whether the database can
    be reached ([getDb] throws otherwise), the clock ([Date.now()], a
    time value) when the request is handled, and the clock when the
    software reply is stamped. *)
Record Env : Type := mkEnv {
  db_available : bool;
  now : Z;
  now_reply : Z
}.

(** What persists between requests: the collection, and the generator
    behind [crypto.getRandomValues]. *)
Record State : Type := mkState { entropy_log : Collection; rng : Rng }.

Definition hex_of (bytes : Uint8Array) : jsstring := toHex bytes.

(** The POST branch. *)
Definition handle_POST (env : Env) (bytes : Uint8Array) (st : State) : Response * State :=
  if negb (Z.of_nat (length bytes) =? ENTROPY_BYTES) then
    (mkResponse 400 (InvalidEntropySize (Z.of_nat (length bytes))), st)
  else
    let entropyHex := hex_of bytes in
    if negb (db_available env) then (mkResponse 500 ServerError, st)
    else
      match findOne_hex (entropy_log st) entropyHex with
      | Some _ => (mkResponse 409 ReplayedEntropy, st)
      | None =>
          (mkResponse 200 (EntropyAccepted ENTROPY_BYTES),
           mkState (insertOne (entropy_log st) entropyHex hardware false (now env))
                   (rng st))
      end.

(** The GET branch. *)
Definition handle_GET (env : Env) (st : State) : Response * State :=
  if negb (db_available env) then (mkResponse 500 ServerError, st)
  else
    let cutoff := now env - ENTROPY_MAX_AGE_MS in
    match findOne_fresh (entropy_log st) cutoff with
    | Some fresh =>
        (mkResponse 200 (Issued hardware (entropy_hex fresh) (created_at fresh)),
         mkState (updateOne_used (entropy_log st) (doc_id fresh)) (rng st))
    | None =>
        let '(softBytes, rng') := getRandomValues (Z.to_nat ENTROPY_BYTES) (rng st) in
        (mkResponse 200 (Issued software (hex_of softBytes) (now_reply env)),
         mkState (entropy_log st) rng')
    end.

(** The handler passed to [Deno.serve]. *)
Definition serve (env : Env) (req : Request) (st : State) : Response * State :=
  match req with
  | OPTIONS => (mkResponse 200 NoBody, st)
  | POST bytes => handle_POST env bytes st
  | GET => handle_GET env st
  | OtherMethod => (mkResponse 405 MethodNotAllowed, st)
  end.

(** ** Requests one after the other *)

(** A run of the server in which no two requests overlap: each is
    handled to its response before the next arrives.  The responses in
    order, and the final state. *)
Fixpoint run (reqs : list (Env * Request)) (st : State) : list Response * State :=
  match reqs with
  | [] => ([], st)
  | (env, req) :: rest =>
      let '(resp, st') := serve env req st in
      let '(resps, st'') := run rest st' in
      (resp :: resps, st'')
  end.

(** The entropy values a list of responses issued as Hardware. *)
Fixpoint hardware_issued (resps : list Response) : list jsstring :=
  match resps with
  | [] => []
  | r :: rest =>
      match body r with
      | Issued hardware hex _ => hex :: hardware_issued rest
      | _ => hardware_issued rest
      end
  end.

Definition initial (r : Rng) : State := mkState [] r.

(** ** Requests that overlap *)

(** The handler is asynchronous.  It waits for the database at each of
    its two calls on the collection, and while it waits for the second,
    other requests are handled: the [findOne] of one request and the
    [insertOne] or [updateOne] that follows it are two separate
    operations on the collection, each atomic by itself. *)

(** A handler that has read the collection and has its write still to
    do: a POST whose [findOne] found no document with its digest, or a
    GET whose [findOne] found the document [fresh]. *)
Inductive Pending : Type :=
| POST_to_insert (env : Env) (entropyHex : jsstring)
| GET_to_update (fresh : Doc).

(** The handler up to and including its first operation on the
    collection: it answers at once, or has a write pending. *)
Definition start (env : Env) (req : Request) (st : State)
    : (Response + Pending) * State :=
  match req with
  | OPTIONS => (inl (mkResponse 200 NoBody), st)
  | POST bytes =>
      if negb (Z.of_nat (length bytes) =? ENTROPY_BYTES) then
        (inl (mkResponse 400 (InvalidEntropySize (Z.of_nat (length bytes)))), st)
      else
        let entropyHex := hex_of bytes in
        if negb (db_available env) then (inl (mkResponse 500 ServerError), st)
        else
          match findOne_hex (entropy_log st) entropyHex with
          | Some _ => (inl (mkResponse 409 ReplayedEntropy), st)
          | None => (inr (POST_to_insert env entropyHex), st)
          end
  | GET =>
      if negb (db_available env) then (inl (mkResponse 500 ServerError), st)
      else
        let cutoff := now env - ENTROPY_MAX_AGE_MS in
        match findOne_fresh (entropy_log st) cutoff with
        | Some fresh => (inr (GET_to_update fresh), st)
        | None =>
            let '(softBytes, rng') := getRandomValues (Z.to_nat ENTROPY_BYTES) (rng st) in
            (inl (mkResponse 200 (Issued software (hex_of softBytes) (now_reply env))),
             mkState (entropy_log st) rng')
        end
  | OtherMethod => (inl (mkResponse 405 MethodNotAllowed), st)
  end.

(** The pending write, on the collection as it is by then, and the
    response. *)
Definition finish (p : Pending) (st : State) : Response * State :=
  match p with
  | POST_to_insert env entropyHex =>
      (mkResponse 200 (EntropyAccepted ENTROPY_BYTES),
       mkState (insertOne (entropy_log st) entropyHex hardware false (now env)) (rng st))
  | GET_to_update fresh =>
      (mkResponse 200 (Issued hardware (entropy_hex fresh) (created_at fresh)),
       mkState (updateOne_used (entropy_log st) (doc_id fresh)) (rng st))
  end.

(** What happens at the server: a request arrives and its handler runs
    up to its first operation on the collection, or the [n]-th of the
    handlers that wait does its write and answers. *)
Inductive Event : Type :=
| Arrives (env : Env) (req : Request)
| Completes (n : nat).

(** The [n]-th element of a list, taken out of it. *)
Fixpoint take_out {A} (n : nat) (l : list A) : option (A * list A) :=
  match n, l with
  | _, [] => None
  | O, x :: l' => Some (x, l')
  | S n', x :: l' =>
      match take_out n' l' with
      | Some (y, rest) => Some (y, x :: rest)
      | None => None
      end
  end.

(** A schedule of events, from the handlers that wait and the state:
    the responses in the order they are sent, the handlers still
    waiting, and the final state. *)
Fixpoint schedule (evs : list Event) (waiting : list Pending) (st : State)
    : list Response * (list Pending * State) :=
  match evs with
  | [] => ([], (waiting, st))
  | Arrives env req :: rest =>
      match start env req st with
      | (inl resp, st') =>
          let '(resps, final) := schedule rest waiting st' in (resp :: resps, final)
      | (inr p, st') => schedule rest (waiting ++ [p]) st'
      end
  | Completes n :: rest =>
      match take_out n waiting with
      | Some (p, waiting') =>
          let '(resp, st') := finish p st in
          let '(resps, final) := schedule rest waiting' st' in (resp :: resps, final)
      | None => schedule rest waiting st
      end
  end.

(** The schedule in which every request is completed before the next
    arrives. *)
Definition one_by_one (reqs : list (Env * Request)) : list Event :=
  flat_map (fun er => [Arrives (fst er) (snd er); Completes 0]) reqs.

(** ** What the properties speak of *)

(** A document with its [used] flag set. *)
Definition mark_used (d : Doc) : Doc :=
  mkDoc (doc_id d) (entropy_hex d) (source d) true (created_at d).

(** The [_id]s of the model: the insertion ranks. *)
Definition ids_ok (col : Collection) : Prop := map doc_id col = seq 0 (length col).

(** No two documents hold the same entropy. *)
Definition hex_unique (col : Collection) : Prop := NoDup (map entropy_hex col).

Definition Inv (col : Collection) : Prop := ids_ok col /\ hex_unique col.

(** The states the server reaches from an empty collection. *)
Definition reachable (st : State) : Prop :=
  exists reqs r0, snd (run reqs (initial r0)) = st.

End EntropyFn.

(* ===================================================================== *)
(** * functions/entropy (in-memory variant) *)
(* ===================================================================== *)

Module EntropyMem.
Import Platform.
Import Crypto.

Definition ENTROPY_FRESHNESS_MS : Z := 60000.

(** The module-level slot [latestEntropy]. *)
Record Latest : Type := mkLatest { data : Uint8Array; timestamp : Z }.

(** A row of the [entropy_log] table: the digest of an accepted payload. *)
Record LogRow : Type := mkRow { entropy_hash : jsstring; is_valid : bool }.

Record State : Type := mkState {
  latestEntropy : option Latest;
  entropy_log : list LogRow;
  rng : Rng
}.

(** The requests, by method and last path segment.  The JSON body of
    derive-key carries an optional [salt]. *)
Inductive Request : Type :=
| OPTIONS
| POST_entropy (body : Uint8Array)
| GET_entropy
| POST_derive_key (salt : option jsstring)
| Other.

Inductive Body : Type :=
| NoBody
| InvalidEntropySize                 (* 'Invalid entropy size. Expected 32 bytes.' *)
| DegenerateEntropy                  (* 'Invalid entropy: degenerate data detected.' *)
| Received (hash : jsstring)         (* { status: 'ok', message, hash } *)
| EntropyStatus (hw : bool) (fresh : bool) (lastUpdate staleness : option Z)
| DerivedKey (keyHex : jsstring) (hw : bool)
| NotFound
| ServerError.                       (* { error: error.message } *)

Record Response : Type := mkResponse { status : Z; body : Body }.

(** What a request finds outside the handler: the clock at the two
    places it is read; whether [createClient] returns a client (it
    throws when [SUPABASE_URL] or [SUPABASE_SERVICE_ROLE_KEY] is not
    set, the empty string passed in its place being refused); and
    whether the insertion into the log table went through (its outcome
    comes back as a value, which the handler ignores). *)
Record Env : Type := mkEnv {
  now : Z;
  now_again : Z;
  createClient_ok : bool;
  log_insert_ok : bool
}.

Definition hex_of (bytes : Uint8Array) : jsstring := toHex bytes.

(** [latestEntropy && (Date.now() - latestEntropy.timestamp) < ENTROPY_FRESHNESS_MS]. *)
Definition isFresh (t : Z) (l : option Latest) : bool :=
  match l with
  | Some e => t - timestamp e <? ENTROPY_FRESHNESS_MS
  | None => false
  end.

Section Handler.
Context {sc : SubtleCrypto}.

(** [POST .../entropy].  The slot [latestEntropy] is assigned before
    the client of the log table is created: when [createClient] throws,
    the [catch] of the handler answers 500 and the slot keeps the
    payload. *)
Definition handle_POST_entropy (env : Env) (entropy : Uint8Array) (st : State)
    : Response * State :=
  if negb (Z.of_nat (length entropy) =? 32) then (mkResponse 400 InvalidEntropySize, st)
  else
    let allZeros := forallb (fun b => byte_val b =? 0) entropy in
    let allOnes := forallb (fun b => byte_val b =? 255) entropy in
    if allZeros || allOnes then (mkResponse 400 DegenerateEntropy, st)
    else
      let latest := Some (mkLatest entropy (now env)) in
      if negb (createClient_ok env) then
        (mkResponse 500 ServerError, mkState latest (entropy_log st) (rng st))
      else
        let hashHex := hex_of (SHA256 entropy) in
        (mkResponse 200 (Received hashHex),
         mkState latest
                 (if log_insert_ok env
                  then entropy_log st ++ [mkRow hashHex true]
                  else entropy_log st)
                 (rng st)).

(** [GET .../entropy]: the status only, never the entropy. *)
Definition handle_GET_entropy (env : Env) (st : State) : Response * State :=
  let fresh := isFresh (now env) (latestEntropy st) in
  (mkResponse 200
     (EntropyStatus fresh fresh
        (option_map timestamp (latestEntropy st))
        (option_map (fun e => now_again env - timestamp e) (latestEntropy st))),
   st).

(** [POST .../derive-key]. *)
Definition handle_POST_derive_key (env : Env) (salt : option jsstring) (st : State)
    : Response * State :=
  let '(keyMaterial, hw, latest', rng') :=
    match latestEntropy st with
    | Some e =>
        if isFresh (now env) (latestEntropy st)
        then (data e, true, None, rng st)
        else let '(b, r) := getRandomValues 32 (rng st) in (b, false, latestEntropy st, r)
    | None =>
        let '(b, r) := getRandomValues 32 (rng st) in (b, false, latestEntropy st, r)
    end in
  let saltText :=
    match salt with
    | Some (c :: s) => c :: s
    | _ => js "qrng-session-salt"
    end in
  let derivedBits :=
    HKDF_SHA256 keyMaterial (TextEncoder_encode saltText)
                (TextEncoder_encode (js "qrng-aes-256-gcm")) 32 in
  (mkResponse 200 (DerivedKey (hex_of derivedBits) hw),
   mkState latest' (entropy_log st) rng').

Definition serve (env : Env) (req : Request) (st : State) : Response * State :=
  match req with
  | OPTIONS => (mkResponse 200 NoBody, st)
  | POST_entropy bytes => handle_POST_entropy env bytes st
  | GET_entropy => handle_GET_entropy env st
  | POST_derive_key salt => handle_POST_derive_key env salt st
  | Other => (mkResponse 404 NotFound, st)
  end.

End Handler.

End EntropyMem.

(* ===================================================================== *)
(** * src/lib/entropy.ts: the client entropy cache *)
(* ===================================================================== *)

Module EntropyCache.
Import Platform.

Inductive EntropySource : Type := hardware | software.

Record EntropyStatus : Type := mkStatus {
  source : EntropySource;
  entropy_hex : jsstring;
  timestamp : jsstring;
  age_ms : option Z
}.

Definition CACHE_TTL_MS : Z := 25000.

(** The JSON the endpoint answered with, as far as it is read. *)
Record Data : Type := mkData {
  data_source : EntropySource;
  data_entropy_hex : jsstring;
  data_timestamp : jsstring
}.

(** How the [try] block ends: it throws (no session, network failure, a
    response that is not ok, a body that is not JSON), or the endpoint's
    data is read. *)
Inductive LiveCall : Type :=
| Failed
| Answered (d : Data).

(** What one call of [fetchEntropy] finds outside: the clock at the age
    test, the outcome of the live call should it be made, and the clock
    should the fallback be stamped. *)
Record Env : Type := mkEnv { now : Z; live : LiveCall; now_fallback : Z }.

(** The module's state: the slot [cachedEntropy], the generator, and (as
    a ghost) the number of live calls started so far. *)
Record State : Type := mkState {
  cachedEntropy : option EntropyStatus;
  rng : Rng;
  live_calls : nat
}.

Definition hex_of (bytes : Uint8Array) : jsstring := toHex bytes.

Definition with_age (e : EntropyStatus) (age : Z) : EntropyStatus :=
  mkStatus (source e) (entropy_hex e) (timestamp e) (Some age).

Section Dates.
(** [new Date(text).getTime()], [None] for NaN, and
    [new Date(ms).toISOString()]. *)
Variable Date_getTime : jsstring -> option Z.
Variable toISOString : Z -> jsstring.

(** [Date.now() - new Date(cachedEntropy.timestamp).getTime()]; NaN when
    the timestamp is not a date. *)
Definition age_of (env : Env) (e : EntropyStatus) : option Z :=
  option_map (fun t => now env - t) (Date_getTime (timestamp e)).

(** The live path: everything after the age test. *)
Definition refresh (env : Env) (st : State) : EntropyStatus * State :=
  match live env with
  | Answered d =>
      let fresh := mkStatus (data_source d) (data_entropy_hex d) (data_timestamp d) None in
      (with_age fresh 0, mkState (Some fresh) (rng st) (S (live_calls st)))
  | Failed =>
      let '(bytes, rng') := getRandomValues 32 (rng st) in
      let fallback :=
        mkStatus software (hex_of bytes) (toISOString (now_fallback env)) (Some 0) in
      (fallback, mkState (Some fallback) rng' (S (live_calls st)))
  end.

(** [fetchEntropy()]. *)
Definition fetchEntropy (env : Env) (st : State) : EntropyStatus * State :=
  match cachedEntropy st with
  | Some cached =>
      match age_of env cached with
      | Some age =>
          if age <? CACHE_TTL_MS then (with_age cached age, st) else refresh env st
      | None => refresh env st
      end
  | None => refresh env st
  end.

(** [clearEntropyCache()]. *)
Definition clearEntropyCache (st : State) : State :=
  mkState None (rng st) (live_calls st).

(** The cached value is young enough to be served. *)
Definition cache_hit (env : Env) (st : State) : Prop :=
  exists cached age,
    cachedEntropy st = Some cached /\
    age_of env cached = Some age /\ age < CACHE_TTL_MS.

End Dates.

End EntropyCache.

(* ===================================================================== *)
(** * Concrete inputs *)
(* ===================================================================== *)

Module Demo.
Import Platform.

(** A generator whose [n]-th octet is [37 n + 11] modulo 256. *)
Definition demo_rng : Rng := mkRng (fun n => ToUint8 (Z.of_nat n * 37 + 11)) 0.

Definition demo_entropy : jsstring :=
  js "000102030405060708090a0b0c0d0e0f101112131415161718191a1b1c1d1e1f".

(** The payload 0x01 .. 0x20 of the specification's scenario, and a second one. *)
Definition payload_1_32 : Uint8Array :=
  [x01; x02; x03; x04; x05; x06; x07; x08; x09; x0a; x0b; x0c; x0d; x0e; x0f; x10;
   x11; x12; x13; x14; x15; x16; x17; x18; x19; x1a; x1b; x1c; x1d; x1e; x1f; x20].

Definition payload_33_64 : Uint8Array :=
  [x21; x22; x23; x24; x25; x26; x27; x28; x29; x2a; x2b; x2c; x2d; x2e; x2f; x30;
   x31; x32; x33; x34; x35; x36; x37; x38; x39; x3a; x3b; x3c; x3d; x3e; x3f; x40].

(** A request handled at time [t], the database reachable. *)
Definition at_time (t : Z) : EntropyFn.Env := EntropyFn.mkEnv true t t.

(** Dates written as a single code unit holding the instant. *)
Definition demo_getTime (s : jsstring) : option Z :=
  match s with
  | [t] => Some t
  | _ => None
  end.

Definition demo_toISOString (t : Z) : jsstring := [t].

End Demo.

(* ===================================================================== *)
(** * More of the sources *)
(* ===================================================================== *)

(** ** lib/crypto.ts: the room key *)

Module RoomKey.
Import Platform.
Import Crypto.


Section Subtle.
Context {sc : SubtleCrypto}.


End Subtle.

End RoomKey.

(** ** The characters of transport text *)

Module TextShape.
Import Platform.

(** A lower-case hexadecimal digit. *)
Definition is_lower_hex (c : code_unit) : bool :=
  ((48 <=? c) && (c <=? 57)) || ((97 <=? c) && (c <=? 102)).

(** A character of the base64 alphabet, or the padding character. *)
Definition is_base64_char (c : code_unit) : bool :=
  match b64_value c with
  | Some _ => true
  | None => c =? b64_pad
  end.

End TextShape.

(** ** lib/crypto.ts, session-key variant *)

Module SessionCrypto.
Import Platform.
Import Crypto.

Inductive EntropySource : Type := hardware | software.

Record EncryptedPayload : Type := mkPayload {
  ciphertext : jsstring;
  iv : jsstring;
  entropySource : EntropySource
}.

(** [bufferToBase64]: the loop appends [String.fromCharCode(bytes[i])]
    to [binary], octet by octet; [btoa] encodes the result. *)
Definition bufferToBase64 (buffer : Uint8Array) : result jsstring :=
  btoa (fold_left (fun binary b => binary ++ [byte_val b]) buffer []).

(** [base64ToBuffer]: [bytes[i] = binary.charCodeAt(i)] for every
    character of [atob(base64)]. *)
Definition base64ToBuffer (base64 : jsstring) : result Uint8Array :=
  binary <- atob base64 ;; Ok (map ToUint8 binary).

Section Subtle.
Context {sc : SubtleCrypto}.

(** [encryptMessage(plaintext, key, source)]. *)
Definition encryptMessage (plaintext : jsstring) (key : CryptoKey)
    (source : EntropySource) : M EncryptedPayload :=
  ivBytes <~ random 12 ;;
  let encoded := TextEncoder_encode plaintext in
  cipherBuffer <~ lift (subtle_encrypt ivBytes key encoded) ;;
  c <~ lift (bufferToBase64 cipherBuffer) ;;
  i <~ lift (bufferToBase64 ivBytes) ;;
  ret (mkPayload c i source).

(** [decryptMessage(payload, key)]. *)
Definition decryptMessage (payload : EncryptedPayload) (key : CryptoKey)
    : result jsstring :=
  cipherBytes <- base64ToBuffer (ciphertext payload) ;;
  ivBytes <- base64ToBuffer (iv payload) ;;
  decrypted <- subtle_decrypt ivBytes key cipherBytes ;;
  Ok (TextDecoder_decode decrypted).

Record EncryptedFile : Type := mkEncryptedFile {
  encryptedBlob : Uint8Array;
  file_iv : jsstring;
  file_entropySource : EntropySource
}.

(** [encryptFile(file, key, source)]. *)
Definition encryptFile (file : Uint8Array) (key : CryptoKey)
    (source : EntropySource) : M EncryptedFile :=
  ivBytes <~ random 12 ;;
  cipherBuffer <~ lift (subtle_encrypt ivBytes key file) ;;
  i <~ lift (bufferToBase64 ivBytes) ;;
  ret (mkEncryptedFile cipherBuffer i source).

(** [decryptFile(encryptedData, ivBase64, key)]. *)
Definition decryptFile (encryptedData : Uint8Array) (ivBase64 : jsstring)
    (key : CryptoKey) : result Uint8Array :=
  ivBytes <- base64ToBuffer ivBase64 ;;
  subtle_decrypt ivBytes key encryptedData.

End Subtle.

(** A 256-bit AES-GCM key that may encrypt and decrypt, as
    [deriveSessionKey] imports or generates it. *)
Definition session_key (k : CryptoKey) : Prop :=
  key_algorithm k = AES_GCM /\ length (key_bytes k) = 32%nat
  /\ existsb (KeyUsage_eqb encrypt) (key_usages k) = true
  /\ existsb (KeyUsage_eqb decrypt) (key_usages k) = true.

End SessionCrypto.

(** ** functions/entropy (MongoDB): what the further properties speak of *)

Module EntropyFnMore.
Import Platform.
Import EntropyFn.

(** The payloads the collection holds, read back from the digests. *)
Definition stored_payloads (st : State) : list Uint8Array :=
  map (fun d => Crypto.hexToBytes (entropy_hex d)) (entropy_log st).

(** A document as ingestion writes it: Hardware, with the digest of a
    32-byte payload. *)
Definition ingested (d : Doc) : Prop :=
  source d = hardware /\
  exists bytes, length bytes = 32%nat /\ entropy_hex d = hex_of bytes.

End EntropyFnMore.

(** ** functions/entropy (in-memory): what the further properties speak of *)

Module EntropyMemMore.
Import Platform.


End EntropyMemMore.

(** ** src/lib/entropy.ts: the status probe; the chat component *)

Module Client.
Import Platform.
Import Crypto.
Import EntropyCache.





(** [String.prototype.trim]: white space and line terminators are
    removed at both ends. *)
Definition trim (s : jsstring) : jsstring := rev (skip_ws (rev (skip_ws s))).

(** The object [{ ciphertext, salt, entropy_hex }] that travels as the
    JSON text [encrypted_payload]. *)
Record Payload : Type := mkPayload {
  payload_ciphertext : jsstring;
  payload_salt : jsstring;
  payload_entropy_hex : jsstring
}.

(** A message record, as far as the chat reads it.  [encrypted_payload]
    is [None] when its text is not the JSON of such an object. *)
Record Message : Type := mkMessage {
  encrypted_payload : option Payload;
  msg_iv : jsstring;
  entropy_source : EntropySource
}.

Definition DECRYPTION_FAILED : jsstring := js "[DECRYPTION FAILED]".

Section Chat.
Context {sc : SubtleCrypto} {eng : Engine}.
Variable Date_getTime : jsstring -> option Z.
Variable toISOString : Z -> jsstring.

(** [handleSend] of the chat, a room being active and no send in
    progress: nothing is sent when the trimmed input is empty or when
    the encryption throws; otherwise the message handed to
    [sendMessage]. *)
Definition handleSend (inputText : jsstring) (env : Env) (st : State)
    : option Message * State :=
  match trim inputText with
  | [] => (None, st)
  | text =>
      let '(entropy, st1) := fetchEntropy Date_getTime toISOString env st in
      match encryptMessage text (entropy_hex entropy) (rng st1) with
      | (Ok e, r) =>
          (Some (mkMessage
                   (Some (mkPayload (Crypto.ciphertext e) (Crypto.salt e)
                                    (entropy_hex entropy)))
                   (Crypto.iv e) (source entropy)),
           mkState (cachedEntropy st1) r (live_calls st1))
      | (Throw _, r) => (None, mkState (cachedEntropy st1) r (live_calls st1))
      end
  end.

(** [decodeMsg]: the plaintext shown for a message; any exception gives
    the placeholder. *)
Definition decodeMsg (msg : Message) (r : Rng) : jsstring :=
  match encrypted_payload msg with
  | None => DECRYPTION_FAILED
  | Some parsed =>
      match decryptMessage (payload_ciphertext parsed) (msg_iv msg)
                           (payload_salt parsed) (payload_entropy_hex parsed) r with
      | (Ok plaintext, _) => plaintext
      | (Throw _, _) => DECRYPTION_FAILED
      end
  end.

End Chat.

End Client.

(* ===================================================================== *)
(** * Facts about the platform functions *)
(* ===================================================================== *)

Module PlatformFacts.
Import Platform.

(** Linear arithmetic with division and remainder by constants. *)
Ltac dlia := Z.to_euclidean_division_equations; lia.

(** Case analysis on the integer comparisons of the goal, conditions of
    an [if] first. *)
Ltac zbool :=
  repeat match goal with
  | |- context [if ?a <? ?b then _ else _] => destruct (Z.ltb_spec a b)
  | |- context [if ?a <=? ?b then _ else _] => destruct (Z.leb_spec a b)
  | |- context [if ?a =? ?b then _ else _] => destruct (Z.eqb_spec a b)
  | |- context [?a <? ?b] => destruct (Z.ltb_spec a b)
  | |- context [?a <=? ?b] => destruct (Z.leb_spec a b)
  | |- context [?a =? ?b] => destruct (Z.eqb_spec a b)
  end; cbn [andb orb negb]; try reflexivity; try lia.

(** Settle one integer comparison of the goal by arithmetic. *)
Ltac settle_cmp :=
  match goal with
  | |- context [?a <? ?b] =>
      first [ replace (a <? b) with true by (symmetry; apply Z.ltb_lt; dlia)
            | replace (a <? b) with false by (symmetry; apply Z.ltb_ge; dlia) ]
  | |- context [?a <=? ?b] =>
      first [ replace (a <=? b) with true by (symmetry; apply Z.leb_le; dlia)
            | replace (a <=? b) with false by (symmetry; apply Z.leb_gt; dlia) ]
  | |- context [?a =? ?b] =>
      first [ replace (a =? b) with true by (symmetry; apply Z.eqb_eq; dlia)
            | replace (a =? b) with false by (symmetry; apply Z.eqb_neq; dlia) ]
  end.

(** ** Examples *)

Example btoa_Man : btoa (js "Man") = Ok (js "TWFu").
Proof. reflexivity. Qed.

Example btoa_Ma : btoa (js "Ma") = Ok (js "TWE=").
Proof. reflexivity. Qed.

Example btoa_wide : btoa [8364] = Throw InvalidCharacterError.
Proof. reflexivity. Qed.

Example atob_spaced : atob (js " T W E = ") = Ok (js "Ma").
Proof. reflexivity. Qed.

Example atob_unpadded : atob (js "TQ") = Ok (js "M").
Proof. reflexivity. Qed.

Example atob_one_char : atob (js "T") = Throw InvalidCharacterError.
Proof. reflexivity. Qed.

Example atob_stray_pad : atob (js "ab=c") = Throw InvalidCharacterError.
Proof. reflexivity. Qed.

Example encode_euro : TextEncoder_encode [8364] = [xe2; x82; xac].
Proof. reflexivity. Qed.

Example encode_pair : TextEncoder_encode [55357; 56832] = [xf0; x9f; x98; x80].
Proof. reflexivity. Qed.

Example encode_lone_surrogate : TextEncoder_encode [55357] = [xef; xbf; xbd].
Proof. reflexivity. Qed.

Example decode_BOM : TextDecoder_decode [xef; xbb; xbf; x41] = [65].
Proof. reflexivity. Qed.

Example decode_truncated : TextDecoder_decode [xe2; x82; x41] = [65533; 65].
Proof. reflexivity. Qed.

Example decode_surrogate : TextDecoder_decode [xed; xa0; x80] = [65533; 65533; 65533].
Proof. reflexivity. Qed.

Example parseInt16_prefix : parseInt16 (js "1g") = Some 1.
Proof. reflexivity. Qed.

Example parseInt16_0x : parseInt16 (js "0x") = None.
Proof. reflexivity. Qed.

Example toHex_pads : toHex [x00; x0a; xff; x10] = js "000aff10".
Proof. reflexivity. Qed.

(** ** Octets *)

Lemma byte_val_range (b : byte) : 0 <= byte_val b < 256.
Proof.
  unfold byte_val. pose proof (Byte.to_N_bounded b). lia.
Qed.

Lemma ToUint8_byte_val (b : byte) : ToUint8 (byte_val b) = b.
Proof.
  unfold ToUint8. pose proof (byte_val_range b) as H.
  rewrite Z.mod_small by lia. unfold byte_val.
  rewrite N2Z.id, Byte.of_to_N. reflexivity.
Qed.

Lemma byte_val_ToUint8 (z : Z) : 0 <= z < 256 -> byte_val (ToUint8 z) = z.
Proof.
  intros H. unfold ToUint8. rewrite Z.mod_small by lia.
  destruct (Byte.of_N (Z.to_N z)) as [b|] eqn:E.
  - apply Byte.to_of_N in E. unfold byte_val. rewrite E. lia.
  - apply Byte.of_N_None_iff in E. lia.
Qed.

Lemma octets_byte_val (bytes : Uint8Array) : Forall octet (map byte_val bytes).
Proof.
  apply Forall_map, Forall_forall. intros b _. apply byte_val_range.
Qed.

Lemma map_ToUint8_byte_val (bytes : Uint8Array) :
  map ToUint8 (map byte_val bytes) = bytes.
Proof.
  rewrite map_map. rewrite <- (map_id bytes) at 2.
  apply map_ext. intros b. apply ToUint8_byte_val.
Qed.

Lemma map_byte_val_ToUint8 l : Forall octet l -> map byte_val (map ToUint8 l) = l.
Proof.
  induction 1 as [|z l Hz _ IH]; [reflexivity|].
  cbn [map]. now rewrite byte_val_ToUint8, IH.
Qed.

(** ** The generator *)

Lemma rng_window_length r off n : length (rng_window r off n) = n.
Proof. unfold rng_window. now rewrite length_map, length_seq. Qed.

Lemma rng_window_advance r n off m :
  rng_window (advance r n) off m = rng_window r (n + off) m.
Proof.
  unfold rng_window, advance. cbn [rng_stream rng_pos]. now rewrite Nat.add_assoc.
Qed.

Lemma advance_advance r n m : advance (advance r n) m = advance r (n + m).
Proof. unfold advance. cbn [rng_stream rng_pos]. now rewrite Nat.add_assoc. Qed.

(** ** Hexadecimal *)

Lemma toHex_length bytes : length (toHex bytes) = (2 * length bytes)%nat.
Proof.
  unfold toHex. induction bytes as [|b bytes IH]; [reflexivity|].
  cbn [flat_map]. rewrite length_app, IH.
  assert (length (padStart2 (toString16 (byte_val b))) = 2%nat) as ->;
    [|cbn [length]; lia].
  unfold toString16. now destruct (byte_val b <? 16).
Qed.

(** ** Lists, two and three elements at a time *)

Lemma list_ind2 {A} (P : list A -> Prop) :
  P [] -> (forall a, P [a]) ->
  (forall a b l, P l -> P (b :: l) -> P (a :: b :: l)) ->
  forall l, P l.
Proof.
  intros H0 H1 H2.
  assert (H : forall l, P l /\ forall a, P (a :: l)).
  { induction l as [|b l [IHl IHc]]; split; auto. }
  intros l. apply H.
Qed.

Lemma list_ind3 {A} (P : list A -> Prop) :
  P [] -> (forall a, P [a]) -> (forall a b, P [a; b]) ->
  (forall a b c l, P l -> P (a :: b :: c :: l)) ->
  forall l, P l.
Proof.
  intros H0 H1 H2 H3.
  fix IH 1. intros [|a [|b [|c l]]].
  - exact H0.
  - apply H1.
  - apply H2.
  - apply H3, IH.
Qed.

Lemma filter_keeps_all {A} (f : A -> bool) l :
  Forall (fun x => f x = true) l -> filter f l = l.
Proof.
  induction 1 as [|x l Hx _ IH]; cbn [filter]; [reflexivity|].
  now rewrite Hx, IH.
Qed.


(** ** Base64 *)

Lemma b64_value_char v : sextet v -> b64_value (b64_char v) = Some v.
Proof.
  unfold sextet, b64_value, b64_char. intros H.
  zbool; try (f_equal; lia).
Qed.

Lemma b64_char_not_pad v : sextet v -> (b64_char v =? b64_pad) = false.
Proof.
  unfold sextet, b64_char, b64_pad. intros H. zbool.
Qed.

Lemma b64_char_not_space v : sextet v -> is_ascii_whitespace (b64_char v) = false.
Proof.
  unfold sextet, b64_char, is_ascii_whitespace. intros H. zbool.
Qed.

Lemma b64_encode_split l : b64_encode l = map b64_char (sextets l) ++ pads l.
Proof.
  induction l as [| a | a b | a b c l IH] using list_ind3; try reflexivity.
  cbn [b64_encode sextets pads map app]. now rewrite IH.
Qed.

Lemma sextets_range l : Forall octet l -> Forall sextet (sextets l).
Proof.
  unfold octet, sextet.
  induction l as [| a | a b | a b c l IH] using list_ind3; intros H; cbn [sextets].
  - constructor.
  - inversion_clear H. repeat (constructor; [dlia|]). constructor.
  - inversion_clear H as [|? ? Ha H']. inversion_clear H'.
    repeat (constructor; [dlia|]). constructor.
  - inversion_clear H as [|? ? Ha H']. inversion_clear H' as [|? ? Hb H''].
    inversion_clear H'' as [|? ? Hc Hl].
    repeat (constructor; [dlia|]). auto.
Qed.

Lemma b64_decode_sextets l : Forall octet l -> b64_decode (sextets l) = l.
Proof.
  unfold octet.
  induction l as [| a | a b | a b c l IH] using list_ind3; intros H;
    cbn [sextets b64_decode].
  - reflexivity.
  - inversion_clear H. f_equal. dlia.
  - inversion_clear H as [|? ? Ha H']. inversion_clear H'.
    f_equal; [dlia|]. f_equal. dlia.
  - inversion_clear H as [|? ? Ha H']. inversion_clear H' as [|? ? Hb H''].
    inversion_clear H'' as [|? ? Hc Hl].
    rewrite IH by assumption.
    f_equal; [dlia|]. f_equal; [dlia|]. f_equal. dlia.
Qed.

Lemma b64_values_chars sx : Forall sextet sx -> b64_values (map b64_char sx) = Some sx.
Proof.
  induction 1 as [|v sx Hv _ IH]; cbn [map b64_values]; [reflexivity|].
  now rewrite b64_value_char, IH.
Qed.

(** How many sextets and pads an encoding has. *)
Lemma encoding_shape l :
  (pads l = [] /\ exists k, length (sextets l) = 4 * k)%nat \/
  (pads l = [b64_pad] /\ exists k, length (sextets l) = 4 * k + 3)%nat \/
  (pads l = [b64_pad; b64_pad] /\ exists k, length (sextets l) = 4 * k + 2)%nat.
Proof.
  induction l as [| a | a b | a b c l IH] using list_ind3; cbn [pads sextets length].
  - left. split; [reflexivity|]. exists 0%nat. reflexivity.
  - right. right. split; [reflexivity|]. exists 0%nat. reflexivity.
  - right. left. split; [reflexivity|]. exists 0%nat. reflexivity.
  - destruct IH as [[-> [k E]] | [[-> [k E]] | [-> [k E]]]]; rewrite E;
      [left | right; left | right; right]; (split; [reflexivity|]);
      exists (S k); lia.
Qed.

Lemma rev_chars_head sx :
  Forall sextet sx ->
  match rev (map b64_char sx) with
  | c :: _ => (c =? b64_pad) = false
  | [] => sx = []
  end.
Proof.
  intros H. rewrite <- map_rev.
  assert (Hr : Forall sextet (rev sx)) by now apply Forall_rev.
  destruct (rev sx) as [|v r] eqn:E; cbn [map].
  - apply (f_equal (@rev Z)) in E. now rewrite rev_involutive in E.
  - inversion_clear Hr. now apply b64_char_not_pad.
Qed.

Lemma strip_padding_encoding l :
  Forall octet l ->
  strip_padding (map b64_char (sextets l) ++ pads l) = map b64_char (sextets l).
Proof.
  intros H. apply sextets_range in H.
  pose proof (rev_chars_head _ H) as Hhd.
  set (m := map b64_char (sextets l)) in *.
  assert (Hlen : length m = length (sextets l)) by apply length_map.
  unfold strip_padding. rewrite length_app, rev_app_distr.
  destruct (encoding_shape l) as [[-> [k E]] | [[-> [k E]] | [-> [k E]]]];
    cbn [length rev app].
  - rewrite app_nil_r. destruct (_ =? 0); [|reflexivity].
    destruct (rev m) as [|c r]; [reflexivity|]. now rewrite Hhd.
  - replace (Z.of_nat (length m + 1) mod 4) with 0 by (rewrite Hlen, E; dlia).
    cbn [Z.eqb]. rewrite Z.eqb_refl.
    destruct (rev m) as [|c r] eqn:Er.
    + subst. rewrite E in *. cbn in Hlen.
      apply (f_equal (@length Z)) in Er. rewrite length_rev in Er. cbn in Er. lia.
    + rewrite Hhd, <- Er. apply rev_involutive.
  - replace (Z.of_nat (length m + 2) mod 4) with 0 by (rewrite Hlen, E; dlia).
    cbn [Z.eqb]. rewrite !Z.eqb_refl. apply rev_involutive.
Qed.

Lemma sextets_length_not_1 l : (Z.of_nat (length (sextets l)) mod 4 =? 1) = false.
Proof.
  apply Z.eqb_neq.
  destruct (encoding_shape l) as [[_ [k E]] | [[_ [k E]] | [_ [k E]]]];
    rewrite E; dlia.
Qed.

(** [atob] undoes the encoding of octets. *)
Lemma atob_b64_encode l : Forall octet l -> atob (b64_encode l) = Ok l.
Proof.
  intros H. pose proof (sextets_range _ H) as Hs.
  unfold atob. rewrite b64_encode_split.
  rewrite filter_keeps_all.
  - rewrite strip_padding_encoding by assumption.
    rewrite length_map, sextets_length_not_1.
    rewrite b64_values_chars by assumption.
    now rewrite b64_decode_sextets.
  - apply Forall_app. split.
    + apply Forall_map. eapply Forall_impl; [|exact Hs].
      intros v Hv. cbv beta. now rewrite b64_char_not_space.
    + destruct (encoding_shape l) as [[-> _] | [[-> _] | [-> _]]];
        repeat constructor.
Qed.

Lemma btoa_octets l : Forall octet l -> btoa l = Ok (b64_encode l).
Proof.
  intros H. unfold btoa.
  replace (forallb _ l) with true; [reflexivity|].
  symmetry. apply forallb_forall. rewrite Forall_forall in H.
  intros c Hc. specialize (H c Hc). unfold octet in H. lia.
Qed.

(** ** UTF-8 and UTF-16 *)

Ltac utf8_run :=
  repeat first
    [ progress cbn [utf8_decode app andb orb negb
                    code_point bytes_seen bytes_needed lower_boundary upper_boundary]
    | progress unfold utf8_step, utf8_start, utf8_init
    | settle_cmp ].

(** The decoder reads back the bytes of one scalar value. *)
Lemma utf8_decode_bytes cp rest :
  scalar cp ->
  utf8_decode utf8_init (utf8_bytes cp ++ rest) = cp :: utf8_decode utf8_init rest.
Proof.
  unfold scalar, utf8_bytes. intros [Hr Hs].
  destruct (Z.ltb_spec cp 128);
    [|destruct (Z.ltb_spec cp 2048); [|destruct (Z.ltb_spec cp 65536)]].
  - utf8_run. reflexivity.
  - utf8_run. f_equal. dlia.
  - destruct (Z.eq_dec (cp / 4096) 0) as [E|E];
      [|destruct (Z.eq_dec (cp / 4096) 13) as [E'|E']];
      utf8_run; f_equal; dlia.
  - destruct (Z.eq_dec (cp / 262144) 0) as [E|E];
      [|destruct (Z.eq_dec (cp / 262144) 4) as [E'|E']];
      utf8_run; f_equal; dlia.
Qed.

Lemma utf8_bytes_octets cp : scalar cp -> Forall octet (utf8_bytes cp).
Proof.
  unfold scalar, utf8_bytes, octet. intros [Hr Hs].
  destruct (Z.ltb_spec cp 128);
    [|destruct (Z.ltb_spec cp 2048); [|destruct (Z.ltb_spec cp 65536)]];
    repeat (constructor; [dlia|]); constructor.
Qed.

Lemma utf8_decode_encode cps :
  Forall scalar cps -> utf8_decode utf8_init (flat_map utf8_bytes cps) = cps.
Proof.
  induction 1 as [|cp cps Hcp _ IH]; [reflexivity|].
  cbn [flat_map]. rewrite utf8_decode_bytes by assumption. now rewrite IH.
Qed.

Lemma flat_map_octets cps : Forall scalar cps -> Forall octet (flat_map utf8_bytes cps).
Proof.
  induction 1 as [|cp cps Hcp _ IH]; cbn [flat_map]; [constructor|].
  apply Forall_app. split; [now apply utf8_bytes_octets | assumption].
Qed.

Lemma to_scalars_cons c rest :
  to_scalars (c :: rest) =
  if is_lead_surrogate c then
    match rest with
    | d :: rest' =>
        if is_trail_surrogate d
        then (65536 + (c - 55296) * 1024 + (d - 56320)) :: to_scalars rest'
        else REPLACEMENT :: to_scalars rest
    | [] => [REPLACEMENT]
    end
  else if is_trail_surrogate c then REPLACEMENT :: to_scalars rest
  else c :: to_scalars rest.
Proof. destruct rest; reflexivity. Qed.

Lemma isWellFormed_cons c rest :
  isWellFormed (c :: rest) =
  if is_lead_surrogate c then
    match rest with
    | d :: rest' => is_trail_surrogate d && isWellFormed rest'
    | [] => false
    end
  else negb (is_trail_surrogate c) && (0 <=? c) && (c <? 65536)
       && isWellFormed rest.
Proof. destruct rest; reflexivity. Qed.

Lemma utf16_units_bmp c : c < 65536 -> utf16_units c = [c].
Proof. intros H. unfold utf16_units. now replace (c <? 65536) with true by lia. Qed.

(** The scalar values of a well-formed string are valid, and spell the
    string back. *)
Lemma to_scalars_well_formed s :
  isWellFormed s = true ->
  Forall scalar (to_scalars s) /\ flat_map utf16_units (to_scalars s) = s.
Proof.
  induction s as [| c | c d s IHs IHd] using list_ind2.
  - intros _. split; [constructor | reflexivity].
  - rewrite isWellFormed_cons, to_scalars_cons.
    unfold is_lead_surrogate, is_trail_surrogate.
    destruct (Z.leb_spec 55296 c), (Z.leb_spec c 56319), (Z.leb_spec 56320 c),
      (Z.leb_spec c 57343), (Z.leb_spec 0 c), (Z.ltb_spec c 65536);
      cbn [andb negb]; try discriminate; try lia; intros _;
      (split; [repeat constructor; unfold scalar; lia
              | cbn [to_scalars flat_map app]; rewrite utf16_units_bmp by lia;
                reflexivity]).
  - rewrite isWellFormed_cons, to_scalars_cons.
    unfold is_lead_surrogate, is_trail_surrogate.
    destruct (Z.leb_spec 55296 c), (Z.leb_spec c 56319); cbn [andb negb].
    2-4: (destruct (Z.leb_spec 56320 c), (Z.leb_spec c 57343), (Z.leb_spec 0 c),
        (Z.ltb_spec c 65536); cbn [andb negb]; try discriminate; try lia;
        intros Hd; destruct (IHd Hd) as [F E];
        (split; [constructor; [unfold scalar; lia | assumption]
                | cbn [flat_map]; rewrite E, utf16_units_bmp by lia; reflexivity])).
    destruct (Z.leb_spec 56320 d), (Z.leb_spec d 57343); cbn [andb];
      try discriminate.
    intros Hs. destruct (IHs Hs) as [F E]. split.
    + constructor; [unfold scalar; lia | assumption].
    + cbn [flat_map]. rewrite E. unfold utf16_units.
      replace (_ <? 65536) with false by lia. cbn [app].
      f_equal; [dlia|]. f_equal. dlia.
Qed.

Lemma drop_BOM_to_scalars s :
  isWellFormed s = true ->
  flat_map utf16_units (drop_BOM (to_scalars s)) = drop_BOM s.
Proof.
  destruct s as [|c rest]; [reflexivity|].
  intros Hwf. pose proof (proj2 (to_scalars_well_formed _ Hwf)) as Hall.
  revert Hwf Hall. rewrite isWellFormed_cons, to_scalars_cons.
  unfold drop_BOM at 2. unfold BOM.
  destruct (Z.eqb_spec c 65279) as [->|Hc].
  - cbn [is_lead_surrogate is_trail_surrogate Z.leb Z.compare Pos.compare
         Pos.compare_cont andb negb Z.ltb drop_BOM Z.eqb Pos.eqb BOM].
    intros Hwf _. now apply to_scalars_well_formed.
  - intros _.
    destruct (is_lead_surrogate c) eqn:Hl.
    + destruct rest as [|d rest']; [intros H; exact H|].
      destruct (is_trail_surrogate d) eqn:Ht; intros H; unfold drop_BOM.
      * unfold is_lead_surrogate, is_trail_surrogate in Hl, Ht.
        replace (_ =? BOM) with false by (unfold BOM; lia). exact H.
      * exact H.
    + destruct (is_trail_surrogate c); intros H; unfold drop_BOM.
      * exact H.
      * replace (c =? BOM) with false by (unfold BOM; lia). exact H.
Qed.

(** Decoding the UTF-8 encoding of a well-formed string gives the string
    back, less a leading U+FEFF. *)
Lemma TextDecoder_TextEncoder s :
  isWellFormed s = true ->
  TextDecoder_decode (TextEncoder_encode s) = drop_BOM s.
Proof.
  intros Hwf. unfold TextDecoder_decode, TextEncoder_encode.
  destruct (to_scalars_well_formed _ Hwf) as [Hsc _].
  rewrite map_byte_val_ToUint8 by now apply flat_map_octets.
  rewrite utf8_decode_encode by assumption.
  now apply drop_BOM_to_scalars.
Qed.

(** ** Dates *)

Example toISOString_epoch : toISOString 0 = js "1970-01-01T00:00:00.000Z".
Proof. vm_compute. reflexivity. Qed.

Example toISOString_leap_day : toISOString 1709251199999 = js "2024-02-29T23:59:59.999Z".
Proof. vm_compute. reflexivity. Qed.

Example toISOString_1900 : toISOString (-2203891200000) = js "1900-03-01T00:00:00.000Z".
Proof. vm_compute. reflexivity. Qed.

Example toISOString_year_0 : toISOString (-62167219200000) = js "0000-01-01T00:00:00.000Z".
Proof. vm_compute. reflexivity. Qed.

Example toISOString_before_year_0 :
  toISOString (-62167219200001) = js "-000001-12-31T23:59:59.999Z".
Proof. vm_compute. reflexivity. Qed.

Example toISOString_year_9999 :
  toISOString 253402300799999 = js "9999-12-31T23:59:59.999Z".
Proof. vm_compute. reflexivity. Qed.

Example toISOString_year_10000 :
  toISOString 253402300800000 = js "+010000-01-01T00:00:00.000Z".
Proof. vm_compute. reflexivity. Qed.

Example toISOString_last : toISOString 8640000000000000 = js "+275760-09-13T00:00:00.000Z".
Proof. vm_compute. reflexivity. Qed.

Lemma DayFromYear_mono y1 y2 : y1 < y2 -> DayFromYear y1 < DayFromYear y2.
Proof. unfold DayFromYear. intros H. dlia. Qed.

Lemma DayFromYear_le y1 y2 : y1 <= y2 -> DayFromYear y1 <= DayFromYear y2.
Proof.
  intros H. destruct (Z.eq_dec y1 y2) as [->|Hne]; [lia|].
  apply Z.lt_le_incl, DayFromYear_mono. lia.
Qed.

(** [YearFromDay d] is the year the standard defines: day [d] is not
    before its first day and is before the first day of the next. *)
Lemma YearFromDay_spec d :
  DayFromYear (YearFromDay d) <= d < DayFromYear (YearFromDay d + 1).
Proof.
  unfold YearFromDay.
  set (y := 1970 + d * 400 / 146097).
  destruct (Z.leb_spec (DayFromYear (y + 1)) d) as [H1|H1].
  - split; [exact H1|]. unfold DayFromYear, y in *. dlia.
  - destruct (Z.leb_spec (DayFromYear y) d) as [H2|H2].
    + split; assumption.
    + replace (y - 1 + 1) with y by lia. split; [|exact H2].
      unfold DayFromYear, y in *. dlia.
Qed.

Lemma YearFromDay_largest d y : DayFromYear y <= d -> y <= YearFromDay d.
Proof.
  intros H. pose proof (YearFromDay_spec d) as [_ U].
  destruct (Z_lt_le_dec (YearFromDay d) y) as [Hlt|]; [|assumption].
  pose proof (DayFromYear_le (YearFromDay d + 1) y ltac:(lia)). lia.
Qed.

Lemma YearFromDay_mono d1 d2 : d1 <= d2 -> YearFromDay d1 <= YearFromDay d2.
Proof.
  intros H. apply YearFromDay_largest.
  pose proof (YearFromDay_spec d1) as [L _]. lia.
Qed.

Lemma year_range t : four_digit_year t -> 0 <= YearFromTime t <= 9999.
Proof.
  unfold four_digit_year, YearFromTime. intros H.
  pose proof (YearFromDay_spec (Day t)) as [L U].
  assert (HD : -719528 <= Day t < 2932897) by (unfold Day, msPerDay; dlia).
  split.
  - apply YearFromDay_largest. change (DayFromYear 0) with (-719528). lia.
  - destruct (Z_lt_le_dec 9999 (YearFromDay (Day t))) as [Hlt|]; [|assumption].
    pose proof (DayFromYear_le 10000 (YearFromDay (Day t)) ltac:(lia)) as H1.
    change (DayFromYear 10000) with 2932897 in H1. lia.
Qed.

Lemma DayWithinYear_range t : 0 <= DayWithinYear t < 366.
Proof.
  unfold DayWithinYear, YearFromTime.
  pose proof (YearFromDay_spec (Day t)) as [L U].
  assert (DayFromYear (YearFromDay (Day t) + 1) <= DayFromYear (YearFromDay (Day t)) + 366)
    by (unfold DayFromYear; dlia).
  lia.
Qed.

Ltac split_ltb x :=
  match goal with
  | |- context [x <? ?k] => destruct (Z.ltb_spec0 x k)
  end.

Lemma leap_days_range t : 0 <= leap_days t <= 1.
Proof. unfold leap_days. destruct (InLeapYear _); lia. Qed.

Lemma month_of_range dwy leap : 0 <= month_of dwy leap <= 11.
Proof. unfold month_of. repeat (split_ltb dwy; [lia|]). lia. Qed.

Lemma date_of_range dwy leap :
  0 <= dwy < 366 -> 0 <= leap <= 1 -> 1 <= date_of dwy leap <= 32.
Proof.
  intros Hd Hl. unfold date_of, month_of.
  repeat (split_ltb dwy; [cbv iota; lia|]). cbv iota. lia.
Qed.

(** Within a year, a later day has a later month, or the same month and
    a later date. *)
Lemma month_date_mono d1 d2 leap :
  d1 <= d2 ->
  month_of d1 leap < month_of d2 leap
  \/ (month_of d1 leap = month_of d2 leap /\ date_of d1 leap <= date_of d2 leap
      /\ (date_of d1 leap = date_of d2 leap -> d1 = d2)).
Proof.
  intros H. unfold date_of, month_of.
  repeat (split_ltb d1; [repeat (split_ltb d2; [cbv iota; lia|]); cbv iota; lia|]).
  repeat (split_ltb d2; [cbv iota; lia|]). cbv iota. lia.
Qed.

Lemma time_of_day_lt a b :
  Day a = Day b -> a < b ->
  HourFromTime a < HourFromTime b
  \/ (HourFromTime a = HourFromTime b
      /\ (MinFromTime a < MinFromTime b
          \/ (MinFromTime a = MinFromTime b
              /\ (SecFromTime a < SecFromTime b
                  \/ (SecFromTime a = SecFromTime b /\ msFromTime a < msFromTime b))))).
Proof.
  unfold Day, msPerDay, HourFromTime, MinFromTime, SecFromTime, msFromTime.
  intros HD Hlt. dlia.
Qed.

Lemma time_of_day_range t :
  0 <= HourFromTime t < 10 ^ Z.of_nat 2 /\ 0 <= MinFromTime t < 10 ^ Z.of_nat 2
  /\ 0 <= SecFromTime t < 10 ^ Z.of_nat 2 /\ 0 <= msFromTime t < 10 ^ Z.of_nat 3.
Proof.
  unfold HourFromTime, MinFromTime, SecFromTime, msFromTime.
  change (10 ^ Z.of_nat 2) with 100. change (10 ^ Z.of_nat 3) with 1000. dlia.
Qed.

(** ** Lists without repetition *)

Lemma NoDup_map_on {A B} (f : A -> B) l :
  (forall x y, In x l -> In y l -> f x = f y -> x = y) ->
  NoDup l -> NoDup (map f l).
Proof.
  intros Hinj. induction 1 as [|x l Hx Hnd IH]; cbn [map]; constructor.
  - intros Hin. apply in_map_iff in Hin as (y & E & Hy).
    apply Hx. rewrite (Hinj x y); [exact Hy | now left | now right | now symmetry].
  - apply IH. intros a b Ha Hb. apply Hinj; now right.
Qed.

End PlatformFacts.

(* ===================================================================== *)
(** * lib/crypto.ts: properties *)
(* ===================================================================== *)

Module CryptoFacts.
Import Platform.
Import Crypto.
Import PlatformFacts.
Import Demo.

Example hexToBytes_odd : hexToBytes (js "0aFf1") = [x0a; xff].
Proof. reflexivity. Qed.

Example hexToBytes_not_hex : hexToBytes (js "zz-1 f0x+a") = [x00; xff; x0f; x00; x0a].
Proof. reflexivity. Qed.

(** Within the engine's limit [bytesToBase64] returns the base64 text;
    beyond it, it throws. *)
Lemma bytesToBase64_ok {eng : Engine} b :
  Z.of_nat (length b) <= max_arguments -> bytesToBase64 b = Ok (enc64 b).
Proof.
  intros H. unfold bytesToBase64, fromCharCode.
  replace (Z.of_nat (length b) <=? max_arguments) with true by lia.
  apply btoa_octets, octets_byte_val.
Qed.

Lemma bytesToBase64_too_long {eng : Engine} b :
  max_arguments < Z.of_nat (length b) -> bytesToBase64 b = Throw RangeError.
Proof.
  intros H. unfold bytesToBase64.
  now replace (Z.of_nat (length b) <=? max_arguments) with false by lia.
Qed.

(** A salt or an IV is always within the limit. *)
Lemma bytesToBase64_window {eng : Engine} r off n :
  (n <= 32)%nat -> bytesToBase64 (rng_window r off n) = Ok (enc64 (rng_window r off n)).
Proof.
  intros H. apply bytesToBase64_ok. rewrite rng_window_length.
  pose proof max_arguments_min. lia.
Qed.

Lemma base64ToBytes_enc64 b : base64ToBytes (enc64 b) = Ok b.
Proof.
  unfold base64ToBytes, enc64.
  rewrite atob_b64_encode by apply octets_byte_val. cbn [bind].
  now rewrite map_ToUint8_byte_val.
Qed.

Lemma enc64_inj a b : enc64 a = enc64 b -> a = b.
Proof.
  intros H. apply (f_equal base64ToBytes) in H.
  rewrite !base64ToBytes_enc64 in H. now injection H.
Qed.

Lemma hexToBytes_length e : length (hexToBytes e) = Nat.div2 (length e).
Proof.
  induction e as [| c | c d e IH _] using list_ind2; [reflexivity | reflexivity |].
  cbn [hexToBytes length Nat.div2]. now rewrite IH.
Qed.

(** [hexToBytes] reads back what [bytesToHex] prints: the 64 characters
    of an issued entropy value stand for its 32 octets. *)
Lemma hexToBytes_bytesToHex b : hexToBytes (bytesToHex b) = b.
Proof.
  unfold bytesToHex, toHex. induction b as [|x b IH]; [reflexivity|].
  cbn [flat_map]. rewrite <- IH at 2. destruct x; reflexivity.
Qed.

(** Octets are printed in lower-case hexadecimal digits. *)
Lemma two_digits_lower_hex b :
  Forall (fun c => TextShape.is_lower_hex c = true) (padStart2 (toString16 (byte_val b))).
Proof. destruct b; repeat constructor. Qed.

Lemma toHex_lower_hex bytes : Forall (fun c => TextShape.is_lower_hex c = true) (toHex bytes).
Proof.
  unfold toHex. induction bytes as [|b bytes IH]; cbn [flat_map]; [constructor|].
  apply Forall_app. split; [apply two_digits_lower_hex | exact IH].
Qed.

Lemma drop_BOM_id s : starts_with_BOM s = false -> drop_BOM s = s.
Proof. destruct s as [|c s]; cbn; [reflexivity|]. now intros ->. Qed.

Lemma demo_subtle_laws : SubtleCrypto_laws demo_subtle.
Proof.
  split.
  - intros ikm sl info n. cbn [HKDF_SHA256 demo_subtle].
    rewrite length_firstn, !length_app, repeat_length. lia.
  - intros k i p _ _. cbn [AES_GCM_decrypt AES_GCM_encrypt demo_subtle].
    rewrite rev_app_distr. cbn [rev app].
    rewrite (Byte.byte_dec_lb eq_refl), rev_involutive. reflexivity.
Qed.

(** The session-key variant builds the string octet by octet and has no
    limit. *)
Lemma fold_left_snoc {A B} (f : A -> B) l init :
  fold_left (fun acc a => acc ++ [f a]) l init = init ++ map f l.
Proof.
  revert init. induction l as [|a l IH]; intros init; cbn [fold_left map].
  - now rewrite app_nil_r.
  - rewrite IH, <- app_assoc. reflexivity.
Qed.

Lemma bufferToBase64_ok b : SessionCrypto.bufferToBase64 b = Ok (enc64 b).
Proof.
  unfold SessionCrypto.bufferToBase64. rewrite fold_left_snoc. cbn [app].
  apply btoa_octets, octets_byte_val.
Qed.

Lemma base64ToBuffer_enc64 b : SessionCrypto.base64ToBuffer (enc64 b) = Ok b.
Proof. apply base64ToBytes_enc64. Qed.

Section WithSubtle.
Context {sc : SubtleCrypto} {eng : Engine}.

Lemma deriveKey_with_salt e s r : deriveKey e (Some s) r = (Ok (derived e s), r).
Proof. reflexivity. Qed.

Lemma deriveKey_fresh_salt e r :
  deriveKey e None r = (Ok (derived e (rng_window r 0 32)), advance r 32).
Proof. reflexivity. Qed.

Lemma random_eq n r : random n r = (Ok (rng_window r 0 n), advance r n).
Proof. reflexivity. Qed.

Lemma subtle_encrypt_derived i e s d :
  subtle_encrypt i (dk_key (derived e s)) d =
  Ok (AES_GCM_encrypt (HKDF_SHA256 (hexToBytes e) s HKDF_info 32) i d).
Proof. reflexivity. Qed.

Lemma subtle_decrypt_derived i e s d :
  subtle_decrypt i (dk_key (derived e s)) d =
  match AES_GCM_decrypt (HKDF_SHA256 (hexToBytes e) s HKDF_info 32) i d with
  | Some p => Ok p
  | None => Throw OperationError
  end.
Proof. reflexivity. Qed.

(** One step of a computation whose first action is known. *)
Ltac step_M :=
  unfold bindM at 1; unfold lift, ret;
  repeat first
    [ rewrite deriveKey_fresh_salt | rewrite deriveKey_with_salt
    | rewrite random_eq | rewrite subtle_encrypt_derived
    | rewrite subtle_decrypt_derived
    | rewrite bytesToBase64_window by lia
    | rewrite base64ToBytes_enc64 ];
  cbv beta iota; cbn [dk_salt derived].

(** The envelope of a message: salt from the first 32 octets the
    generator yields, IV from the next 12, and the cipher text in base64
    when it is within the engine's limit. *)
Lemma encryptMessage_eq p e r :
  encryptMessage p e r =
  (if Z.of_nat (length (message_cipher p e r)) <=? max_arguments
   then Ok (mkEnvelope (enc64 (message_cipher p e r))
                       (enc64 (rng_window r 32 12)) (enc64 (rng_window r 0 32)))
   else Throw RangeError,
   advance r 44).
Proof.
  unfold encryptMessage, toArrayBuffer, message_cipher.
  do 4 step_M.
  rewrite rng_window_advance, advance_advance. cbn [Nat.add].
  set (c := AES_GCM_encrypt _ _ _).
  destruct (Z.leb_spec (Z.of_nat (length c)) max_arguments) as [H|H].
  - unfold bindM at 1. rewrite (bytesToBase64_ok c H).
    do 2 step_M. reflexivity.
  - unfold bindM at 1. now rewrite (bytesToBase64_too_long c H).
Qed.

Lemma encryptFile_eq file e r :
  let saltBytes := rng_window r 0 32 in
  let ivBytes := rng_window r 32 12 in
  encryptFile file e r =
  (Ok (mkFileEnvelope
         (AES_GCM_encrypt (HKDF_SHA256 (hexToBytes e) saltBytes HKDF_info 32)
                          ivBytes file)
         (enc64 ivBytes) (enc64 saltBytes)),
   advance r 44).
Proof.
  intros saltBytes ivBytes. unfold encryptFile, toArrayBuffer.
  do 6 step_M.
  rewrite rng_window_advance, advance_advance. reflexivity.
Qed.

Lemma decryptMessage_eq c i s e r :
  decryptMessage (enc64 c) (enc64 i) (enc64 s) e r =
  (match AES_GCM_decrypt (HKDF_SHA256 (hexToBytes e) s HKDF_info 32) i c with
   | Some p => Ok (TextDecoder_decode p)
   | None => Throw OperationError
   end, r).
Proof.
  unfold decryptMessage. do 4 step_M. unfold bindM, lift, ret.
  now destruct (AES_GCM_decrypt _ _ _).
Qed.

Lemma decryptFile_eq c i s e r :
  decryptFile c (enc64 i) (enc64 s) e r =
  (match AES_GCM_decrypt (HKDF_SHA256 (hexToBytes e) s HKDF_info 32) i c with
   | Some p => Ok p
   | None => Throw OperationError
   end, r).
Proof.
  unfold decryptFile. do 3 step_M. unfold lift. reflexivity.
Qed.

(** Whatever the text, if its cipher text is within the engine's limit,
    decryption returns the UTF-8 decoding of its UTF-8 encoding. *)
Lemma decrypt_encrypt_message (Hsc : SubtleCrypto_laws sc) p e r :
  Z.of_nat (length (message_cipher p e r)) <= max_arguments ->
  exists env r',
    encryptMessage p e r = (Ok env, r') /\
    forall r2,
      decryptMessage (ciphertext env) (iv env) (salt env) e r2
      = (Ok (TextDecoder_decode (TextEncoder_encode p)), r2).
Proof.
  intros Hlen. eexists. eexists. split.
  - rewrite encryptMessage_eq.
    replace (Z.of_nat (length (message_cipher p e r)) <=? max_arguments) with true by lia.
    reflexivity.
  - intros r2. cbn [ciphertext iv salt]. rewrite decryptMessage_eq.
    unfold message_cipher. rewrite (AEAD_correct sc Hsc);
      [reflexivity | apply (HKDF_length sc Hsc) | apply rng_window_length].
Qed.

(** A file, which is a byte sequence, comes back as it was. *)
Lemma decrypt_encrypt_file (Hsc : SubtleCrypto_laws sc) file e r :
  exists env r',
    encryptFile file e r = (Ok env, r') /\
    forall r2,
      decryptFile (encryptedBlob env) (file_iv env) (file_salt env) e r2
      = (Ok file, r2).
Proof.
  eexists. eexists. split; [apply encryptFile_eq|].
  intros r2. cbn [encryptedBlob file_iv file_salt]. rewrite decryptFile_eq.
  rewrite (AEAD_correct sc Hsc);
    [reflexivity | apply (HKDF_length sc Hsc) | apply rng_window_length].
Qed.

End WithSubtle.

(** The cipher of the concrete instance adds one octet to the plaintext. *)
Lemma demo_cipher_length p e r :
  length (message_cipher (sc := demo_subtle) p e r) = S (length (TextEncoder_encode p)).
Proof.
  unfold message_cipher. cbn [AES_GCM_encrypt demo_subtle].
  rewrite length_app. cbn [length]. lia.
Qed.

(** C1 (as amended).  Let HKDF return 32 octets when asked for 32, and
    AES-GCM decryption invert encryption.  For every plaintext string
    [p] that is well-formed UTF-16 and does not begin with U+FEFF, every
    entropy string [e] and every state of the random generator, provided
    the cipher text of [p] has no more octets than the engine takes as
    arguments of one call, [encryptMessage p e] returns an envelope, and
    [decryptMessage] on that envelope's ciphertext, iv and salt with the
    same [e] returns exactly [p]. *)
Theorem message_round_trip (sc : SubtleCrypto) (eng : Engine)
    (Hsc : SubtleCrypto_laws sc) p e r :
  isWellFormed p = true -> starts_with_BOM p = false ->
  Z.of_nat (length (message_cipher p e r)) <= max_arguments ->
  round_trip p e r.
Proof.
  intros Hwf Hbom Hlen.
  destruct (decrypt_encrypt_message Hsc p e r Hlen) as (env & r' & He & Hd).
  exists env, r'. split; [exact He|]. intros r2.
  now rewrite Hd, TextDecoder_TextEncoder, drop_BOM_id.
Qed.

Lemma message_round_trip_witness :
  round_trip (sc := demo_subtle) (eng := demo_engine) (js "hello") demo_entropy demo_rng.
Proof.
  apply (message_round_trip demo_subtle demo_engine demo_subtle_laws);
    [reflexivity | reflexivity |].
  rewrite demo_cipher_length. cbn. lia.
Defined.

(** C1 as stated fails: the plaintext U+FEFF "hi", encrypted under a
    valid 32-byte entropy value, does not decrypt to itself (it decrypts
    to "hi": [TextDecoder] drops the leading U+FEFF). *)
Lemma round_trip_drops_BOM :
  SubtleCrypto_laws demo_subtle /\ is_entropy_hex demo_entropy = true /\
  ~ round_trip (sc := demo_subtle) (eng := demo_engine)
      [65279; 104; 105] demo_entropy demo_rng.
Proof.
  split; [exact demo_subtle_laws|]. split; [reflexivity|].
  intros (env & r' & He & Hd).
  assert (Hlen : Z.of_nat (length (message_cipher (sc := demo_subtle) [65279; 104; 105]
                                     demo_entropy demo_rng))
                 <= max_arguments (Engine := demo_engine)).
  { rewrite demo_cipher_length. cbn. lia. }
  destruct (decrypt_encrypt_message (eng := demo_engine) demo_subtle_laws
              [65279; 104; 105] demo_entropy demo_rng Hlen) as (env' & r'' & He' & Hd').
  rewrite He in He'. injection He' as <- <-.
  specialize (Hd demo_rng). rewrite Hd' in Hd.
  rewrite TextDecoder_TextEncoder in Hd by reflexivity.
  discriminate Hd.
Qed.

(** The same with an unpaired surrogate, which [TextEncoder] replaces. *)
Example lone_surrogate_replaced :
  TextDecoder_decode (TextEncoder_encode [55357]) = [65533].
Proof. reflexivity. Qed.

(** C2.  With a salt supplied, [deriveKey] returns the AES-GCM key whose
    octets are HKDF-SHA-256 of the entropy octets, that salt and the
    fixed info string, together with the supplied salt itself; it draws
    nothing from the random generator, so two calls with the same
    entropy and salt return the same result whatever the generator's
    state.  In particular the key made at encryption time, with a fresh
    salt, is the key any party derives from the same entropy and that
    salt. *)
Theorem deriveKey_deterministic (sc : SubtleCrypto) e s r1 r2 :
  deriveKey e (Some s) r1
  = (Ok (mkDerived (mkKey AES_GCM (HKDF_SHA256 (hexToBytes e) s HKDF_info 32) false
                          [encrypt; decrypt]) s), r1)
  /\ fst (deriveKey e (Some s) r1) = fst (deriveKey e (Some s) r2)
  /\ exists dk r',
       deriveKey e None r1 = (Ok dk, r')
       /\ deriveKey e (Some (dk_salt dk)) r2 = (Ok dk, r2).
Proof.
  split; [reflexivity|]. split; [reflexivity|].
  eexists. eexists. split; reflexivity.
Qed.

(** C5 (as amended).  [deriveKey] checks no length: for an entropy
    string of any length, with or without a salt, it returns a key,
    derived by HKDF from the octets [hexToBytes] reads, of which there
    are half as many as characters (rounded down). *)
Theorem deriveKey_any_length (sc : SubtleCrypto) e s r :
  exists dk r',
    deriveKey e s r = (Ok dk, r')
    /\ key_bytes (dk_key dk) = HKDF_SHA256 (hexToBytes e) (dk_salt dk) HKDF_info 32
    /\ length (hexToBytes e) = Nat.div2 (length e).
Proof.
  destruct s as [s|]; eexists; eexists;
    (split; [reflexivity | split; [reflexivity | apply hexToBytes_length]]).
Qed.

(** C5 as stated fails: entropy of one octet is not rejected. *)
Lemma deriveKey_one_octet :
  hexToBytes (js "ab") = [xab]
  /\ exists dk r', deriveKey (sc := demo_subtle) (js "ab") None demo_rng = (Ok dk, r').
Proof. split; [reflexivity|]. eexists. eexists. reflexivity. Qed.

(** C8.  Every encryption, of a message or of a file, under any entropy
    value, draws from the random generator 32 octets of salt and then 12
    octets of IV, and it is under those 12 octets that it runs AES-GCM:
    the cipher text it returns is AES-GCM of the plaintext under the key
    derived from the entropy and that salt and under that IV, and its iv
    field is the base64 text of the same 12 octets.  An envelope is
    returned for every file, and for every message whose cipher text is
    within the engine's limit on arguments.  The generator is left 44
    octets further in every case, so that the encryption that follows,
    whatever it encrypts and under whichever entropy, takes its IV from
    octets the generator yields later in its stream. *)
Theorem fresh_iv_per_encryption (sc : SubtleCrypto) (eng : Engine) e r :
  let ivBytes := rng_window r 32 12 in
  let key := HKDF_SHA256 (hexToBytes e) (rng_window r 0 32) HKDF_info 32 in
  (forall p,
      snd (encryptMessage p e r) = advance r 44
      /\ (forall env,
            fst (encryptMessage p e r) = Ok env ->
            base64ToBytes (iv env) = Ok ivBytes
            /\ base64ToBytes (ciphertext env)
               = Ok (AES_GCM_encrypt key ivBytes (TextEncoder_encode p)))
      /\ (Z.of_nat (length (AES_GCM_encrypt key ivBytes (TextEncoder_encode p)))
          <= max_arguments ->
          exists env, fst (encryptMessage p e r) = Ok env))
  /\ (forall f,
        exists env,
          encryptFile f e r = (Ok env, advance r 44)
          /\ base64ToBytes (file_iv env) = Ok ivBytes
          /\ encryptedBlob env = AES_GCM_encrypt key ivBytes f)
  /\ length ivBytes = 12%nat
  /\ ivBytes = map (rng_stream r) (seq (rng_pos r + 32) 12)
  /\ rng_window (advance r 44) 32 12 = map (rng_stream r) (seq (rng_pos r + 76) 12).
Proof.
  intros ivBytes key. split; [|split; [|split; [|split]]].
  - intros p. rewrite encryptMessage_eq. fold ivBytes. unfold message_cipher. fold key ivBytes.
    cbn [fst snd]. split; [reflexivity|]. split.
    + intros env.
      destruct (_ <=? _); [|discriminate].
      intros [= <-]. cbn [iv ciphertext]. now rewrite !base64ToBytes_enc64.
    + intros H.
      replace (_ <=? _) with true by lia. eexists. reflexivity.
  - intros f. eexists. split; [apply encryptFile_eq|].
    cbn [file_iv encryptedBlob]. split; [apply base64ToBytes_enc64 | reflexivity].
  - apply rng_window_length.
  - reflexivity.
  - unfold rng_window, advance. cbn [rng_stream rng_pos].
    now replace (rng_pos r + 44 + 32)%nat with (rng_pos r + 76)%nat by lia.
Qed.

(** C10.  [bytesToBase64] passes the octets as the arguments of one
    call.  For an array within the engine's limit on arguments it
    returns a text that [base64ToBytes] reads back as the array; for a
    longer array it throws a [RangeError] and there is no text to read
    back.  The session-key variant's [bufferToBase64], which appends the
    characters one by one, and its [base64ToBuffer] round-trip arrays of
    every length. *)
Theorem base64_round_trip (eng : Engine) (b : Uint8Array) :
  (Z.of_nat (length b) <= max_arguments ->
   bind (bytesToBase64 b) base64ToBytes = Ok b)
  /\ (max_arguments < Z.of_nat (length b) ->
      bind (bytesToBase64 b) base64ToBytes = Throw RangeError)
  /\ bind (SessionCrypto.bufferToBase64 b) SessionCrypto.base64ToBuffer = Ok b.
Proof.
  split; [|split].
  - intros H. rewrite (bytesToBase64_ok b H). apply base64ToBytes_enc64.
  - intros H. now rewrite (bytesToBase64_too_long b H).
  - rewrite bufferToBase64_ok. apply base64ToBuffer_enc64.
Qed.

(** An array of 200000 zero octets, in an engine that takes 65535
    arguments: [bytesToBase64] throws. *)
Lemma base64_large_array :
  bind (bytesToBase64 (eng := demo_engine) (repeat x00 (Z.to_nat 200000))) base64ToBytes
  = Throw RangeError.
Proof.
  apply (proj1 (proj2 (base64_round_trip demo_engine (repeat x00 (Z.to_nat 200000))))).
  rewrite repeat_length, Z2Nat.id by lia. cbn [max_arguments demo_engine]. lia.
Defined.

End CryptoFacts.

(* ===================================================================== *)
(** * functions/entropy (MongoDB): properties *)
(* ===================================================================== *)

Module EntropyFnFacts.
Import Platform.
Import EntropyFn.
Import EntropyFnMore.
Import PlatformFacts.
Import Demo.

(** ** The order of ISO texts *)

Lemma text_compare_cons c x y : text_compare (c :: x) (c :: y) = text_compare x y.
Proof. cbn [text_compare]. now rewrite Z.compare_refl. Qed.

Lemma text_compare_refl x : text_compare x x = Eq.
Proof. induction x as [|c x IH]; [reflexivity|]. now rewrite text_compare_cons. Qed.

Lemma text_compare_antisym x y : text_compare y x = CompOpp (text_compare x y).
Proof.
  revert y. induction x as [|c x IH]; intros [|d y]; cbn [text_compare]; try reflexivity.
  rewrite (Z.compare_antisym c d). destruct (c ?= d); cbn [CompOpp]; auto.
Qed.

(** Numbers written with the same number of digits compare as texts the
    way they compare as numbers. *)
Lemma digits_compare w a b x y :
  0 <= a < 10 ^ Z.of_nat w -> 0 <= b < 10 ^ Z.of_nat w ->
  text_compare (digits w a ++ x) (digits w b ++ y) =
  match a ?= b with
  | Eq => text_compare x y
  | c => c
  end.
Proof.
  revert a b. induction w as [|w IH]; intros a b Ha Hb.
  - cbn in Ha, Hb. replace a with 0 by lia. replace b with 0 by lia. reflexivity.
  - rewrite Nat2Z.inj_succ, Z.pow_succ_r in Ha, Hb by lia.
    cbn [digits app text_compare].
    set (P := 10 ^ Z.of_nat w) in *.
    assert (HP : 0 < P) by (apply Z.pow_pos_nonneg; lia).
    pose proof (Z.div_mod a P ltac:(lia)) as Ea.
    pose proof (Z.div_mod b P ltac:(lia)) as Eb.
    pose proof (Z.mod_pos_bound a P HP) as Ra.
    pose proof (Z.mod_pos_bound b P HP) as Rb.
    rewrite Z.add_compare_mono_l.
    destruct (Z.compare_spec (a / P) (b / P)) as [E|L|G].
    + rewrite IH by assumption.
      replace (a ?= b) with (a mod P ?= b mod P); [reflexivity|].
      rewrite E in Ea.
      destruct (Z.compare_spec (a mod P) (b mod P));
        symmetry; [apply Z.compare_eq_iff | apply Z.compare_lt_iff | apply Z.compare_gt_iff]; lia.
    + assert (a < b).
      { destruct (Z_lt_le_dec a b); [assumption|].
        pose proof (Z.div_le_mono b a P HP ltac:(lia)). lia. }
      now rewrite (proj2 (Z.compare_lt_iff a b)).
    + assert (b < a).
      { destruct (Z_lt_le_dec b a); [assumption|].
        pose proof (Z.div_le_mono a b P HP ltac:(lia)). lia. }
      now rewrite (proj2 (Z.compare_gt_iff a b)).
Qed.

Ltac lt_here := rewrite (proj2 (Z.compare_lt_iff _ _)) by lia; reflexivity.
Ltac eq_here H := rewrite H, Z.compare_refl.

Lemma toISOString_lt a b :
  four_digit_year a -> four_digit_year b -> a < b ->
  text_compare (toISOString a) (toISOString b) = Lt.
Proof.
  intros Ha Hb Hlt.
  pose proof (year_range a Ha) as Ya. pose proof (year_range b Hb) as Yb.
  assert (HD : Day a <= Day b) by (unfold Day, msPerDay; dlia).
  pose proof (YearFromDay_mono _ _ HD) as HY. fold (YearFromTime a) (YearFromTime b) in HY.
  pose proof (DayWithinYear_range a) as Wa. pose proof (DayWithinYear_range b) as Wb.
  pose proof (leap_days_range a) as La. pose proof (leap_days_range b) as Lb.
  pose proof (month_of_range (DayWithinYear a) (leap_days a)) as Ma.
  pose proof (month_of_range (DayWithinYear b) (leap_days b)) as Mb.
  pose proof (date_of_range _ _ Wa La) as Da. pose proof (date_of_range _ _ Wb Lb) as Db.
  destruct (time_of_day_range a) as (Ra1 & Ra2 & Ra3 & Ra4).
  destruct (time_of_day_range b) as (Rb1 & Rb2 & Rb3 & Rb4).
  unfold toISOString, year_text.
  replace ((0 <=? YearFromTime a) && (YearFromTime a <=? 9999)) with true by lia.
  replace ((0 <=? YearFromTime b) && (YearFromTime b <=? 9999)) with true by lia.
  rewrite digits_compare by (change (10 ^ Z.of_nat 4) with 10000; lia).
  destruct (Z.eq_dec (YearFromTime a) (YearFromTime b)) as [EY|NY]; [|lt_here].
  eq_here EY. rewrite text_compare_cons.
  assert (EL : leap_days a = leap_days b) by (unfold leap_days; now rewrite EY).
  assert (HW : DayWithinYear a <= DayWithinYear b) by (unfold DayWithinYear; rewrite EY; lia).
  unfold MonthFromTime, DateFromTime in *. rewrite EL in *.
  rewrite digits_compare by (change (10 ^ Z.of_nat 2) with 100; lia).
  destruct (month_date_mono _ _ (leap_days b) HW) as [HM | (EM & HDt & Hinj)]; [lt_here|].
  eq_here EM. rewrite text_compare_cons.
  rewrite digits_compare by (change (10 ^ Z.of_nat 2) with 100; lia).
  destruct (Z.eq_dec (date_of (DayWithinYear a) (leap_days b))
                     (date_of (DayWithinYear b) (leap_days b))) as [ED|ND]; [|lt_here].
  eq_here ED. rewrite text_compare_cons.
  assert (EDay : Day a = Day b).
  { specialize (Hinj ED). unfold DayWithinYear in Hinj. rewrite EY in Hinj. lia. }
  destruct (time_of_day_lt a b EDay Hlt) as [H | (E1 & [H | (E2 & [H | (E3 & H)])])].
  - rewrite digits_compare by assumption. lt_here.
  - rewrite digits_compare by assumption. eq_here E1. rewrite text_compare_cons.
    rewrite digits_compare by assumption. lt_here.
  - rewrite digits_compare by assumption. eq_here E1. rewrite text_compare_cons.
    rewrite digits_compare by assumption. eq_here E2. rewrite text_compare_cons.
    rewrite digits_compare by assumption. lt_here.
  - rewrite digits_compare by assumption. eq_here E1. rewrite text_compare_cons.
    rewrite digits_compare by assumption. eq_here E2. rewrite text_compare_cons.
    rewrite digits_compare by assumption. eq_here E3. rewrite text_compare_cons.
    rewrite digits_compare by assumption. lt_here.
Qed.

(** The ISO texts of two instants whose years have four digits compare
    as the instants do. *)
Lemma toISOString_order a b :
  four_digit_year a -> four_digit_year b ->
  text_compare (toISOString a) (toISOString b) = (a ?= b).
Proof.
  intros Ha Hb. destruct (Z.compare_spec a b) as [->|H|H].
  - apply text_compare_refl.
  - now apply toISOString_lt.
  - rewrite text_compare_antisym, toISOString_lt by assumption. reflexivity.
Qed.

Lemma text_leb_iso a b :
  four_digit_year a -> four_digit_year b ->
  text_leb (toISOString a) (toISOString b) = (a <=? b).
Proof.
  intros Ha Hb. unfold text_leb, Z.leb. now rewrite toISOString_order.
Qed.

Lemma text_ltb_iso a b :
  four_digit_year a -> four_digit_year b ->
  text_ltb (toISOString a) (toISOString b) = (a <? b).
Proof.
  intros Ha Hb. unfold text_ltb, Z.ltb. now rewrite toISOString_order.
Qed.

(** There, the filter of the issuance is the window on the instants. *)
Lemma eligible_window cutoff d :
  four_digit_year cutoff -> four_digit_year (created_at d) ->
  eligible cutoff d = true <->
  used d = false /\ source d = hardware /\ cutoff <= created_at d.
Proof.
  intros Hc Hd. unfold eligible. rewrite text_leb_iso by assumption.
  destruct (used d), (source d); cbn [negb EntropySource_eqb andb];
    (split; [try discriminate; intros H; repeat split; lia
            | intros (H1 & H2 & H3); try discriminate; lia]).
Qed.

(** ** The collection *)

Lemma jsstring_eqb_eq a b : jsstring_eqb a b = true <-> a = b.
Proof.
  revert b. induction a as [|x a IH]; intros [|y b]; cbn [jsstring_eqb];
    try (split; [discriminate | discriminate]); [tauto|].
  rewrite andb_true_iff, Z.eqb_eq, IH. split.
  - intros [-> ->]. reflexivity.
  - intros [= -> ->]. auto.
Qed.

Lemma findOne_hex_None col hex :
  findOne_hex col hex = None <-> ~ In hex (map entropy_hex col).
Proof.
  unfold findOne_hex. induction col as [|d col IH]; cbn [find map In]; [tauto|].
  destruct (jsstring_eqb (entropy_hex d) hex) eqn:E.
  - apply jsstring_eqb_eq in E. split; [discriminate | tauto].
  - assert (entropy_hex d <> hex) by (rewrite <- jsstring_eqb_eq; congruence).
    tauto.
Qed.

Lemma findOne_hex_Some col hex :
  In hex (map entropy_hex col) -> exists d, findOne_hex col hex = Some d.
Proof.
  intros H. destruct (findOne_hex col hex) as [d|] eqn:E; [eauto|].
  now apply findOne_hex_None in E.
Qed.

Lemma updateOne_used_ids col id : map doc_id (updateOne_used col id) = map doc_id col.
Proof.
  induction col as [|d col IH]; cbn [updateOne_used map]; [reflexivity|].
  destruct (Nat.eqb (doc_id d) id); cbn [map doc_id]; [reflexivity | now rewrite IH].
Qed.

Lemma updateOne_used_hex col id :
  map entropy_hex (updateOne_used col id) = map entropy_hex col.
Proof.
  induction col as [|d col IH]; cbn [updateOne_used map]; [reflexivity|].
  destruct (Nat.eqb (doc_id d) id); cbn [map entropy_hex]; [reflexivity | now rewrite IH].
Qed.

Lemma updateOne_used_length col id : length (updateOne_used col id) = length col.
Proof.
  rewrite <- (length_map doc_id), updateOne_used_ids. apply length_map.
Qed.

Lemma mark_used_id d : used d = true -> mark_used d = d.
Proof. destruct d as [i h s u t]; cbn. now intros ->. Qed.

(** Every document stays, unchanged or with its flag set. *)
Lemma updateOne_used_persists col id d :
  In d col -> In d (updateOne_used col id) \/ (used d = false /\ In (mark_used d) (updateOne_used col id)).
Proof.
  induction col as [|d0 col IH]; cbn [updateOne_used In]; [tauto|].
  intros [-> | Hin].
  - destruct (Nat.eqb (doc_id d) id).
    + destruct (used d) eqn:U.
      * left. left. now apply mark_used_id.
      * right. split; [reflexivity|]. now left.
    + left. now left.
  - destruct (Nat.eqb (doc_id d0) id).
    + left. now right.
    + destruct (IH Hin) as [H | [U H]]; [left | right; split; [exact U|]]; now right.
Qed.


Lemma newest_In l d : newest l = Some d -> In d l.
Proof.
  revert d. induction l as [|d0 l IH]; cbn [newest]; [discriminate|].
  intros d. destruct (newest l) as [d'|].
  - destruct (text_ltb _ _); intros [= <-]; [right; now apply IH | now left].
  - intros [= <-]. now left.
Qed.

Lemma newest_None l : newest l = None -> l = [].
Proof.
  destruct l as [|d0 l]; cbn [newest]; [reflexivity|].
  destruct (newest l) as [d'|]; [|discriminate].
  destruct (text_ltb _ _); discriminate.
Qed.

Lemma findOne_fresh_Some col cutoff d :
  findOne_fresh col cutoff = Some d -> In d col /\ eligible cutoff d = true.
Proof.
  unfold findOne_fresh. intros H. apply newest_In, filter_In in H. exact H.
Qed.

Lemma findOne_fresh_None col cutoff :
  findOne_fresh col cutoff = None <-> forall d, In d col -> eligible cutoff d = false.
Proof.
  unfold findOne_fresh. split.
  - intros H d Hin. apply newest_None in H.
    destruct (eligible cutoff d) eqn:E; [|reflexivity].
    assert (Hf : In d (filter (eligible cutoff) col)) by (apply filter_In; auto).
    rewrite H in Hf. destruct Hf.
  - intros H. replace (filter (eligible cutoff) col) with (@nil Doc); [reflexivity|].
    symmetry. induction col as [|d col IH]; cbn [filter]; [reflexivity|].
    rewrite (H d) by now left. apply IH. intros d' Hd'. apply H. now right.
Qed.

Lemma Inv_nil : Inv [].
Proof. split; [reflexivity | constructor]. Qed.

Lemma Inv_insertOne col hex src u t :
  Inv col -> ~ In hex (map entropy_hex col) -> Inv (insertOne col hex src u t).
Proof.
  unfold Inv, ids_ok, hex_unique, insertOne. intros [Hid Hhx] Hnew.
  rewrite !map_app, length_app, seq_app, Hid. cbn [map length seq doc_id entropy_hex Nat.add].
  split; [reflexivity|].
  apply NoDup_app; [assumption | repeat constructor; intros [] | ].
  intros h Hh [<- | []]. contradiction.
Qed.

Lemma Inv_updateOne_used col id : Inv col -> Inv (updateOne_used col id).
Proof.
  unfold Inv, ids_ok, hex_unique.
  now rewrite updateOne_used_ids, updateOne_used_hex, updateOne_used_length.
Qed.

(** ** The handler keeps the invariant and never loses a document *)

Lemma serve_Inv env req st :
  Inv (entropy_log st) -> Inv (entropy_log (snd (serve env req st))).
Proof.
  intros HI. destruct req as [| bytes | |]; cbn [serve]; try exact HI.
  - unfold handle_POST.
    destruct (negb (Z.of_nat (length bytes) =? ENTROPY_BYTES)); [exact HI|].
    destruct (negb (db_available env)); [exact HI|].
    destruct (findOne_hex _ _) eqn:E; [exact HI|].
    cbn [snd entropy_log]. apply Inv_insertOne; [exact HI|].
    now apply findOne_hex_None.
  - unfold handle_GET.
    destruct (negb (db_available env)); [exact HI|].
    destruct (findOne_fresh _ _); cbn [snd entropy_log].
    + now apply Inv_updateOne_used.
    + exact HI.
Qed.

Lemma run_cons env req rest st :
  run ((env, req) :: rest) st =
  (fst (serve env req st) :: fst (run rest (snd (serve env req st))),
   snd (run rest (snd (serve env req st)))).
Proof.
  cbn [run]. destruct (serve env req st) as [resp st1]. cbn [fst snd].
  now destruct (run rest st1).
Qed.

Lemma run_Inv reqs st :
  Inv (entropy_log st) -> Inv (entropy_log (snd (run reqs st))).
Proof.
  revert st. induction reqs as [|[env req] rest IH]; intros st HI; [exact HI|].
  rewrite run_cons. cbn [snd]. now apply IH, serve_Inv.
Qed.


Lemma serve_persists env req st d :
  In d (entropy_log st) ->
  In d (entropy_log (snd (serve env req st))) \/
  (used d = false /\ In (mark_used d) (entropy_log (snd (serve env req st)))).
Proof.
  intros Hin. destruct req as [| bytes | |]; cbn [serve snd]; auto.
  - unfold handle_POST.
    destruct (negb (Z.of_nat (length bytes) =? ENTROPY_BYTES)); [auto|].
    destruct (negb (db_available env)); [auto|].
    destruct (findOne_hex _ _); [auto|].
    left. cbn [snd entropy_log]. unfold insertOne. apply in_or_app. now left.
  - unfold handle_GET.
    destruct (negb (db_available env)); [auto|].
    destruct (findOne_fresh _ _); cbn [snd entropy_log]; [|auto].
    now apply updateOne_used_persists.
Qed.

(** What has been consumed stays consumed, with the same entropy. *)
Lemma serve_keeps_used env req st d :
  In d (entropy_log st) -> used d = true ->
  In d (entropy_log (snd (serve env req st))).
Proof.
  intros Hin U. destruct (serve_persists env req st d Hin) as [H | [U' _]];
    [exact H | congruence].
Qed.

Lemma run_keeps_used reqs st d :
  In d (entropy_log st) -> used d = true -> In d (entropy_log (snd (run reqs st))).
Proof.
  revert st. induction reqs as [|[env req] rest IH]; intros st Hin U; [exact Hin|].
  rewrite run_cons. cbn [snd]. apply IH; [|exact U]. now apply serve_keeps_used.
Qed.

Lemma serve_keeps_hex env req st h :
  In h (map entropy_hex (entropy_log st)) ->
  In h (map entropy_hex (entropy_log (snd (serve env req st)))).
Proof.
  intros Hin. apply in_map_iff in Hin as (d & <- & Hd).
  destruct (serve_persists env req st d Hd) as [H | [_ H]].
  - now apply in_map.
  - change (entropy_hex d) with (entropy_hex (mark_used d)). now apply in_map.
Qed.

Lemma run_keeps_hex reqs st h :
  In h (map entropy_hex (entropy_log st)) ->
  In h (map entropy_hex (entropy_log (snd (run reqs st)))).
Proof.
  revert st. induction reqs as [|[env req] rest IH]; intros st Hin; [exact Hin|].
  rewrite run_cons. cbn [snd]. now apply IH, serve_keeps_hex.
Qed.

(** ** What the collection holds *)

Lemma ingested_mark_used d : ingested d -> ingested (mark_used d).
Proof. intros H. exact H. Qed.

Lemma updateOne_used_Forall (P : Doc -> Prop) col id :
  (forall d, P d -> P (mark_used d)) -> Forall P col -> Forall P (updateOne_used col id).
Proof.
  intros Hm. induction 1 as [|d col Hd Hcol IH]; cbn [updateOne_used]; [constructor|].
  destruct (Nat.eqb (doc_id d) id); constructor.
  - exact (Hm d Hd).
  - assumption.
  - exact Hd.
  - exact IH.
Qed.

Lemma serve_ingested env req st :
  Forall ingested (entropy_log st) ->
  Forall ingested (entropy_log (snd (serve env req st))).
Proof.
  intros H. destruct req as [| bytes | |]; cbn [serve]; try exact H.
  - unfold handle_POST, ENTROPY_BYTES.
    destruct (Z.eqb_spec (Z.of_nat (length bytes)) 32) as [E|E]; cbn [negb]; [|exact H].
    destruct (negb (db_available env)); [exact H|].
    destruct (findOne_hex _ _); [exact H|].
    cbn [snd entropy_log]. unfold insertOne. apply Forall_app. split; [exact H|].
    constructor; [|constructor]. split; [reflexivity|].
    exists bytes. split; [lia | reflexivity].
  - unfold handle_GET.
    destruct (negb (db_available env)); [exact H|].
    destruct (findOne_fresh _ _); cbn [snd entropy_log]; [|exact H].
    apply updateOne_used_Forall; [apply ingested_mark_used | exact H].
Qed.

Lemma run_ingested reqs st :
  Forall ingested (entropy_log st) ->
  Forall ingested (entropy_log (snd (run reqs st))).
Proof.
  revert st. induction reqs as [|[env req] rest IH]; intros st H; [exact H|].
  rewrite run_cons. cbn [snd]. now apply IH, serve_ingested.
Qed.

Lemma reachable_ingested st : reachable st -> Forall ingested (entropy_log st).
Proof. intros (reqs & r0 & <-). apply run_ingested. constructor. Qed.

Lemma hex_of_inj a b : hex_of a = hex_of b -> a = b.
Proof.
  intros H. apply (f_equal Crypto.hexToBytes) in H.
  unfold hex_of in H. now rewrite !(CryptoFacts.hexToBytes_bytesToHex) in H.
Qed.

Lemma hexToBytes_hex_of bytes : Crypto.hexToBytes (hex_of bytes) = bytes.
Proof. apply CryptoFacts.hexToBytes_bytesToHex. Qed.

(** The payload is in the collection exactly when its digest is. *)
Lemma stored_payload_digest st bytes :
  Forall ingested (entropy_log st) ->
  In bytes (stored_payloads st) <-> In (hex_of bytes) (map entropy_hex (entropy_log st)).
Proof.
  intros Hing. rewrite Forall_forall in Hing. unfold stored_payloads.
  rewrite !in_map_iff. split; intros (d & E & Hin); exists d; (split; [|exact Hin]).
  - destruct (Hing d Hin) as (_ & b' & _ & Hhex).
    rewrite Hhex, hexToBytes_hex_of in E. now rewrite Hhex, E.
  - rewrite E. apply hexToBytes_hex_of.
Qed.

(** With distinct digests, all of payloads, the payloads are distinct. *)
Lemma stored_payloads_NoDup st :
  Forall ingested (entropy_log st) -> hex_unique (entropy_log st) ->
  NoDup (stored_payloads st).
Proof.
  intros Hing Hu. rewrite Forall_forall in Hing. unfold stored_payloads, hex_unique in *.
  rewrite <- (map_map entropy_hex Crypto.hexToBytes).
  apply NoDup_map_on; [|exact Hu].
  intros x y Hx Hy E.
  apply in_map_iff in Hx as (dx & <- & Hdx). apply in_map_iff in Hy as (dy & <- & Hdy).
  destruct (Hing dx Hdx) as (_ & bx & _ & Ex). destruct (Hing dy Hdy) as (_ & by' & _ & Ey).
  rewrite Ex, Ey in *. rewrite !hexToBytes_hex_of in E. now rewrite E.
Qed.

(** ** Requests that overlap, and requests that do not *)

(** Handling a request is its start, followed at once by its pending
    write if it has one. *)
Lemma serve_start_finish env req st :
  serve env req st =
  match start env req st with
  | (inl resp, st') => (resp, st')
  | (inr p, st') => finish p st'
  end.
Proof.
  destruct req as [| bytes | |]; cbn [serve start]; try reflexivity.
  - unfold handle_POST.
    destruct (negb (Z.of_nat (length bytes) =? ENTROPY_BYTES)); [reflexivity|].
    destruct (negb (db_available env)); [reflexivity|].
    destruct (findOne_hex _ _); reflexivity.
  - unfold handle_GET.
    destruct (negb (db_available env)); [reflexivity|].
    destruct (findOne_fresh _ _); [reflexivity|].
    now destruct (getRandomValues _ _).
Qed.

(** A run is the schedule in which each request is completed before the
    next arrives. *)
Lemma run_one_by_one reqs st :
  schedule (one_by_one reqs) [] st = (fst (run reqs st), ([], snd (run reqs st))).
Proof.
  revert st. induction reqs as [|[env req] rest IH]; intros st; [reflexivity|].
  rewrite run_cons. cbn [one_by_one flat_map fst snd app schedule].
  fold (one_by_one rest). rewrite serve_start_finish.
  destruct (start env req st) as [[resp | p] st1].
  - cbn [take_out fst snd]. now rewrite IH.
  - cbn [app take_out]. destruct (finish p st1) as [resp st2]. cbn [fst snd].
    now rewrite IH.
Qed.

(** ** Ingestion *)

Lemma POST_accepted env bytes st :
  db_available env = true -> length bytes = 32%nat ->
  findOne_hex (entropy_log st) (hex_of bytes) = None ->
  serve env (POST bytes) st =
  (mkResponse 200 (EntropyAccepted 32),
   mkState (entropy_log st ++
              [mkDoc (length (entropy_log st)) (hex_of bytes) hardware false (now env)])
           (rng st)).
Proof.
  intros Hdb Hlen Hnew. cbn [serve]. unfold handle_POST.
  rewrite Hlen, Hdb, Hnew. reflexivity.
Qed.

Lemma POST_replayed env bytes st :
  db_available env = true -> length bytes = 32%nat ->
  In (hex_of bytes) (map entropy_hex (entropy_log st)) ->
  serve env (POST bytes) st = (mkResponse 409 ReplayedEntropy, st).
Proof.
  intros Hdb Hlen Hold. cbn [serve]. unfold handle_POST.
  rewrite Hlen, Hdb. destruct (findOne_hex_Some _ _ Hold) as [d ->]. reflexivity.
Qed.

(** C4 (as amended).  Requests handled one after the other, the
    database reachable.  In a state reached from an empty collection, a
    32-byte payload that the collection does not hold is accepted (200)
    and stored as one new document: its digest has 64 characters and
    reads back as the payload, its source is Hardware, [used] is false
    and its date is the clock's.  After that, and after any further
    requests, the same payload is refused with 409 and the state is left
    as it was.  In every state so reached no two documents hold the same
    payload. *)
Theorem ingest_twice env1 env2 bytes st :
  reachable st ->
  db_available env1 = true -> db_available env2 = true ->
  length bytes = 32%nat ->
  ~ In bytes (stored_payloads st) ->
  let st1 := snd (serve env1 (POST bytes) st) in
  fst (serve env1 (POST bytes) st) = mkResponse 200 (EntropyAccepted 32)
  /\ (exists d,
        entropy_log st1 = entropy_log st ++ [d]
        /\ Crypto.hexToBytes (entropy_hex d) = bytes
        /\ length (entropy_hex d) = 64%nat
        /\ source d = hardware /\ used d = false /\ created_at d = now env1)
  /\ rng st1 = rng st
  /\ (forall reqs,
        let st2 := snd (run reqs st1) in
        serve env2 (POST bytes) st2 = (mkResponse 409 ReplayedEntropy, st2))
  /\ (forall reqs r0, NoDup (stored_payloads (snd (run reqs (initial r0))))).
Proof.
  intros Hr Hdb1 Hdb2 Hlen Hnew st1. subst st1.
  pose proof (reachable_ingested st Hr) as Hing.
  assert (Hnone : findOne_hex (entropy_log st) (hex_of bytes) = None).
  { apply findOne_hex_None. now rewrite <- stored_payload_digest. }
  rewrite (POST_accepted env1 bytes st Hdb1 Hlen Hnone). cbn [fst snd entropy_log rng].
  split; [reflexivity|]. split; [|split; [reflexivity|split]].
  - eexists. split; [reflexivity|]. cbn [entropy_hex source used created_at].
    split; [apply hexToBytes_hex_of|]. split; [|auto].
    unfold hex_of. rewrite toHex_length. lia.
  - intros reqs. apply POST_replayed; [assumption..|].
    apply run_keeps_hex. cbn [entropy_log]. rewrite map_app. apply in_or_app.
    right. now left.
  - intros reqs r0. apply stored_payloads_NoDup.
    + apply run_ingested. constructor.
    + apply run_Inv, Inv_nil.
Qed.

(** C4 as stated fails when two requests overlap: the same payload,
    posted twice, the second request arriving while the first waits
    between its [findOne] and its [insertOne], is accepted twice (200
    and 200, no 409) and stored twice. *)
Lemma overlapping_replay_accepted :
  let evs := [Arrives (at_time 0) (POST payload_1_32);
              Arrives (at_time 1) (POST payload_1_32);
              Completes 0; Completes 0] in
  let out := schedule evs [] (initial demo_rng) in
  length payload_1_32 = 32%nat
  /\ map status (fst out) = [200; 200]
  /\ fst (snd out) = []
  /\ stored_payloads (snd (snd out)) = [payload_1_32; payload_1_32]
  /\ ~ NoDup (stored_payloads (snd (snd out))).
Proof.
  split; [reflexivity|]. split; [reflexivity|]. split; [reflexivity|].
  split; [reflexivity|].
  intros H. inversion_clear H as [|? ? Hx _]. apply Hx. left. reflexivity.
Qed.

(** ** Issuance *)

Lemma GET_hardware env st fresh :
  db_available env = true ->
  findOne_fresh (entropy_log st) (now env - ENTROPY_MAX_AGE_MS) = Some fresh ->
  serve env GET st =
  (mkResponse 200 (Issued hardware (entropy_hex fresh) (created_at fresh)),
   mkState (updateOne_used (entropy_log st) (doc_id fresh)) (rng st)).
Proof.
  intros Hdb Hf. cbn [serve]. unfold handle_GET. now rewrite Hdb, Hf.
Qed.

Lemma GET_software env st :
  db_available env = true ->
  findOne_fresh (entropy_log st) (now env - ENTROPY_MAX_AGE_MS) = None ->
  serve env GET st =
  (mkResponse 200 (Issued software (hex_of (rng_window (rng st) 0 32)) (now_reply env)),
   mkState (entropy_log st) (advance (rng st) 32)).
Proof.
  intros Hdb Hf. cbn [serve]. unfold handle_GET. now rewrite Hdb, Hf.
Qed.



Lemma hardware_issued_cons resp resps :
  hardware_issued (resp :: resps) =
  match body resp with
  | Issued hardware hex _ => hex :: hardware_issued resps
  | _ => hardware_issued resps
  end.
Proof. reflexivity. Qed.



Lemma hex_of_length bytes : length (hex_of bytes) = (2 * length bytes)%nat.
Proof. apply toHex_length. Qed.




(** C7 (as amended).  Let the database be reachable, and let the start
    of the freshness window (the clock less 30 000 ms) and the dates of
    the stored samples lie in the years 0000 to 9999.  When no document
    is unconsumed, Hardware and created within the window, issuance
    answers 200 with source Software and an entropy text of 64
    lower-case hexadecimal digits, which reads back as 32 octets drawn
    from the random generator in that call; the generator is left 32
    octets further and the collection is as it was. *)
Theorem software_fallback env st :
  db_available env = true ->
  four_digit_year (now env - ENTROPY_MAX_AGE_MS) ->
  (forall d, In d (entropy_log st) -> four_digit_year (created_at d)) ->
  (forall d, In d (entropy_log st) ->
             ~ (used d = false /\ source d = hardware
                /\ now env - ENTROPY_MAX_AGE_MS <= created_at d)) ->
  exists hex,
    serve env GET st =
      (mkResponse 200 (Issued software hex (now_reply env)),
       mkState (entropy_log st) (advance (rng st) 32))
    /\ Crypto.hexToBytes hex = rng_window (rng st) 0 32
    /\ length (rng_window (rng st) 0 32) = 32%nat
    /\ length hex = 64%nat
    /\ Forall (fun c => TextShape.is_lower_hex c = true) hex.
Proof.
  intros Hdb Hcut Hdates Hnone. exists (hex_of (rng_window (rng st) 0 32)).
  split; [|split; [|split; [|split]]].
  - apply GET_software; [exact Hdb|]. apply findOne_fresh_None.
    intros d Hd. destruct (eligible _ d) eqn:E; [|reflexivity].
    apply eligible_window in E; [|exact Hcut | now apply Hdates].
    now destruct (Hnone d Hd).
  - apply hexToBytes_hex_of.
  - apply rng_window_length.
  - now rewrite hex_of_length, rng_window_length.
  - apply CryptoFacts.toHex_lower_hex.
Qed.

Lemma software_fallback_witness :
  let st := snd (run [(at_time 0, POST payload_1_32)] (initial demo_rng)) in
  exists hex,
    serve (at_time 40000) GET st =
      (mkResponse 200 (Issued software hex 40000),
       mkState (entropy_log st) (advance (rng st) 32))
    /\ Crypto.hexToBytes hex = rng_window (rng st) 0 32
    /\ length (rng_window (rng st) 0 32) = 32%nat
    /\ length hex = 64%nat
    /\ Forall (fun c => TextShape.is_lower_hex c = true) hex.
Proof.
  intros st. refine (software_fallback (at_time 40000) st eq_refl _ _ _).
  - cbn. unfold four_digit_year. lia.
  - intros d [<- | []]. cbn. unfold four_digit_year. lia.
  - intros d [<- | []] (_ & _ & H). cbn in H. lia.
Defined.

(** C7 as stated fails once the clock has passed the year 9999: the
    start of the window is then written with a sign and six digits
    ("+010000-01-01T00:00:00.000Z"), the date of a sample of the year
    9999 with four, and as texts the second is the greater.  A sample an
    hour old, outside the window of 30 seconds, is issued as Hardware. *)
Lemma stale_sample_issued :
  let posted := 253402297200000 in
  let asked := 253402300830000 in
  let st := snd (run [(at_time posted, POST payload_1_32)] (initial demo_rng)) in
  toISOString posted = js "9999-12-31T23:00:00.000Z"
  /\ toISOString (asked - ENTROPY_MAX_AGE_MS) = js "+010000-01-01T00:00:00.000Z"
  /\ (forall d, In d (entropy_log st) ->
                ~ (used d = false /\ source d = hardware
                   /\ asked - ENTROPY_MAX_AGE_MS <= created_at d))
  /\ fst (serve (at_time asked) GET st)
     = mkResponse 200 (Issued hardware (hex_of payload_1_32) posted).
Proof.
  split; [vm_compute; reflexivity|]. split; [vm_compute; reflexivity|]. split.
  - intros d [<- | []] (_ & _ & H). cbn in H. lia.
  - vm_compute. reflexivity.
Qed.

Lemma ingest_twice_witness :
  fst (serve (at_time 0) (POST payload_1_32) (initial demo_rng))
  = mkResponse 200 (EntropyAccepted 32).
Proof.
  refine (proj1 (ingest_twice (at_time 0) (at_time 1) payload_1_32 (initial demo_rng)
                   _ eq_refl eq_refl eq_refl _)).
  - exists [], demo_rng. reflexivity.
  - intros [].
Defined.

(** The specification's replay scenario: the payload 0x01..0x20 posted
    again after it was stored is refused. *)
Example replay_refused :
  let st1 := snd (serve (at_time 0) (POST payload_1_32) (initial demo_rng)) in
  serve (at_time 1) (POST payload_1_32) st1 = (mkResponse 409 ReplayedEntropy, st1).
Proof. reflexivity. Qed.

(** The scenario of the specification, run: the payload 0x01..0x20 is
    accepted, refused when sent again, issued once, and the issuance
    after that is Software. *)
Example scenario_statuses :
  map status
    (fst (run [(at_time 0, POST payload_1_32); (at_time 10, POST payload_1_32);
               (at_time 1000, GET); (at_time 2000, GET)] (initial demo_rng)))
  = [200; 409; 200; 200].
Proof. reflexivity. Qed.

Example scenario_issued :
  hardware_issued
    (fst (run [(at_time 0, POST payload_1_32); (at_time 10, POST payload_1_32);
               (at_time 1000, GET); (at_time 2000, GET)] (initial demo_rng)))
  = [hex_of payload_1_32].
Proof. reflexivity. Qed.

End EntropyFnFacts.

(* ===================================================================== *)
(** * functions/entropy (in-memory variant): properties *)
(* ===================================================================== *)

Module EntropyMemFacts.
Import Platform.
Import Demo.

Example mixed_payload_accepted :
  EntropyMem.status
    (fst (EntropyMem.serve (sc := Crypto.demo_subtle) (EntropyMem.mkEnv 0 0 true true)
            (EntropyMem.POST_entropy payload_1_32)
            (EntropyMem.mkState None [] demo_rng)))
  = 200.
Proof. reflexivity. Qed.

(** C6 (as amended).  For a 32-byte payload of all-zero or of all-0xFF
    octets: the in-memory variant of the ingestion endpoint answers 400
    with the degenerate-entropy error and changes nothing; the
    MongoDB-backed variant makes no such check, and accepts and stores
    the payload like any other that is not a replay. *)
Theorem degenerate_entropy (sc : Crypto.SubtleCrypto) (bytes : Uint8Array) :
  bytes = repeat x00 32 \/ bytes = repeat xff 32 ->
  (forall env st,
      EntropyMem.serve env (EntropyMem.POST_entropy bytes) st
      = (EntropyMem.mkResponse 400 EntropyMem.DegenerateEntropy, st))
  /\ (forall env st,
        EntropyFn.db_available env = true ->
        EntropyFn.findOne_hex (EntropyFn.entropy_log st) (EntropyFn.hex_of bytes) = None ->
        EntropyFn.serve env (EntropyFn.POST bytes) st
        = (EntropyFn.mkResponse 200 (EntropyFn.EntropyAccepted 32),
           EntropyFn.mkState
             (EntropyFn.entropy_log st ++
                [EntropyFn.mkDoc (length (EntropyFn.entropy_log st))
                   (EntropyFn.hex_of bytes) EntropyFn.hardware false (EntropyFn.now env)])
             (EntropyFn.rng st))).
Proof.
  intros H. split.
  - intros env st. destruct H as [-> | ->]; reflexivity.
  - intros env st Hdb Hnew. apply EntropyFnFacts.POST_accepted; [exact Hdb | | exact Hnew].
    destruct H as [-> | ->]; reflexivity.
Qed.

Lemma degenerate_entropy_witness :
  EntropyMem.serve (sc := Crypto.demo_subtle) (EntropyMem.mkEnv 0 0 true true)
    (EntropyMem.POST_entropy (repeat xff 32)) (EntropyMem.mkState None [] demo_rng)
  = (EntropyMem.mkResponse 400 EntropyMem.DegenerateEntropy,
     EntropyMem.mkState None [] demo_rng).
Proof.
  exact (proj1 (degenerate_entropy Crypto.demo_subtle (repeat xff 32)
                  (or_intror eq_refl)) _ _).
Defined.

(** C6 as stated fails on the MongoDB-backed endpoint: 32 zero octets
    are accepted with 200 and stored. *)
Lemma zero_entropy_accepted :
  EntropyFn.serve (at_time 0) (EntropyFn.POST (repeat x00 32)) (EntropyFn.initial demo_rng)
  = (EntropyFn.mkResponse 200 (EntropyFn.EntropyAccepted 32),
     EntropyFn.mkState
       [EntropyFn.mkDoc 0 (repeat 48 64) EntropyFn.hardware false 0] demo_rng).
Proof. reflexivity. Qed.

End EntropyMemFacts.

(* ===================================================================== *)
(** * src/lib/entropy.ts: properties *)
(* ===================================================================== *)

Module EntropyCacheFacts.
Import Platform.
Import EntropyCache.
Import Demo.

Section CacheFacts.
Variable Date_getTime : jsstring -> option Z.
Variable toISOString : Z -> jsstring.

Lemma fetchEntropy_miss env st :
  ~ cache_hit Date_getTime env st ->
  fetchEntropy Date_getTime toISOString env st = refresh toISOString env st.
Proof.
  unfold cache_hit, fetchEntropy. intros H.
  destruct (cachedEntropy st) as [cached|]; [|reflexivity].
  destruct (age_of Date_getTime env cached) as [age|] eqn:Ha; [|reflexivity].
  destruct (Z.ltb_spec age CACHE_TTL_MS); [|reflexivity].
  exfalso. apply H. exists cached, age. auto.
Qed.


End CacheFacts.


(** A stale value is replaced by the endpoint's answer. *)
Example stale_cache_refreshed :
  let cached := mkStatus hardware (js "ab") [1000] None in
  let d := mkData software (js "cd") [26000] in
  fetchEntropy demo_getTime demo_toISOString (mkEnv 26000 (Answered d) 26000)
    (mkState (Some cached) demo_rng 1)
  = (mkStatus software (js "cd") [26000] (Some 0),
     mkState (Some (mkStatus software (js "cd") [26000] None)) demo_rng 2).
Proof. reflexivity. Qed.

End EntropyCacheFacts.

(* ===================================================================== *)
(** * lib/crypto.ts: further properties *)
(* ===================================================================== *)

Module CryptoMoreFacts.
Import Platform.
Import Crypto.
Import PlatformFacts.
Import CryptoFacts.
Import RoomKey.
Import TextShape.
Import Demo.

(** ** Hexadecimal text *)

Lemma toHex_cons x l : toHex (x :: l) = toHex [x] ++ toHex l.
Proof. unfold toHex. cbn [flat_map]. now rewrite app_nil_r. Qed.

Lemma lower_hex_cases c :
  is_lower_hex c = true ->
  c = 48 \/ c = 49 \/ c = 50 \/ c = 51 \/ c = 52 \/ c = 53 \/ c = 54 \/ c = 55 \/
  c = 56 \/ c = 57 \/ c = 97 \/ c = 98 \/ c = 99 \/ c = 100 \/ c = 101 \/ c = 102.
Proof. unfold is_lower_hex. lia. Qed.

Lemma toHex_pair c1 c2 :
  is_lower_hex c1 = true -> is_lower_hex c2 = true ->
  toHex [store_uint8 (parseInt16 [c1; c2])] = [c1; c2].
Proof.
  intros H1 H2.
  apply lower_hex_cases in H1. apply lower_hex_cases in H2.
  repeat (destruct H1 as [-> | H1]); try subst c1;
    repeat (destruct H2 as [-> | H2]); try subst c2; reflexivity.
Qed.

Lemma lower_hex_is_hex c : is_lower_hex c = true -> hex_value c <> None.
Proof.
  intros H. apply lower_hex_cases in H.
  repeat (destruct H as [-> | H]); try subst c; discriminate.
Qed.

(** X1.  [hexToBytes] reads back what [bytesToHex] prints, for every
    byte array; and [bytesToHex] prints back what [hexToBytes] read, for
    every string of lower-case hexadecimal digits of even length. *)
Theorem hex_round_trip :
  (forall b, hexToBytes (bytesToHex b) = b)
  /\ (forall s, Nat.even (length s) = true ->
                Forall (fun c => is_lower_hex c = true) s ->
                bytesToHex (hexToBytes s) = s).
Proof.
  split; [apply hexToBytes_bytesToHex|].
  unfold bytesToHex.
  induction s as [| c | c d s IH _] using list_ind2.
  - reflexivity.
  - discriminate.
  - cbn [length Nat.even]. intros He Hf.
    inversion_clear Hf as [|? ? Hc Hf']. inversion_clear Hf' as [|? ? Hd Hs].
    cbn [hexToBytes]. rewrite toHex_cons.
    rewrite toHex_pair by assumption. cbn [app]. now rewrite IH.
Qed.

(** X2.  [bytesToHex] prints two lower-case hexadecimal digits per
    octet; the text of 32 octets is an entropy value of 64 digits. *)
Theorem bytesToHex_shape b :
  length (bytesToHex b) = (2 * length b)%nat
  /\ Forall (fun c => is_lower_hex c = true) (bytesToHex b)
  /\ (length b = 32%nat -> is_entropy_hex (bytesToHex b) = true).
Proof.
  unfold bytesToHex. split; [apply toHex_length|].
  split; [apply toHex_lower_hex|].
  intros H32. unfold is_entropy_hex. rewrite toHex_length, H32. cbn [Nat.mul Nat.add Nat.eqb andb].
  apply forallb_forall. intros c Hc.
  pose proof (toHex_lower_hex b) as Hall. rewrite Forall_forall in Hall.
  pose proof (lower_hex_is_hex c (Hall c Hc)). now destruct (hex_value c).
Qed.

(** X3.  [hexToBytes] never fails; it reads its input two characters at
    a time, so the bytes of a text after a prefix of even length are the
    bytes of the prefix followed by the bytes of the rest, and a last
    single character is ignored. *)
Theorem hexToBytes_pairs s1 s2 :
  Nat.even (length s1) = true ->
  hexToBytes (s1 ++ s2) = hexToBytes s1 ++ hexToBytes s2
  /\ (forall c, hexToBytes (s1 ++ [c]) = hexToBytes s1).
Proof.
  intros He.
  assert (H : forall s2, hexToBytes (s1 ++ s2) = hexToBytes s1 ++ hexToBytes s2).
  { clear s2. induction s1 as [| c | c d s1 IH _] using list_ind2; intros s2.
    - reflexivity.
    - discriminate.
    - cbn [length Nat.even] in He. cbn [app hexToBytes]. now rewrite IH. }
  split; [apply H|]. intros c. rewrite H. cbn [hexToBytes]. apply app_nil_r.
Qed.

Lemma hexToBytes_pairs_witness :
  hexToBytes (js "0aff" ++ js "1") = hexToBytes (js "0aff") ++ hexToBytes (js "1").
Proof. exact (proj1 (hexToBytes_pairs (js "0aff") (js "1") eq_refl)). Defined.

(** ** Base64 text *)

Lemma b64_encode_length l :
  length (b64_encode l) = (4 * ((length l + 2) / 3))%nat.
Proof.
  induction l as [| a | a b | a b c l IH] using list_ind3; try reflexivity.
  cbn [b64_encode length]. rewrite IH.
  replace (S (S (S (length l))) + 2)%nat with (length l + 2 + 1 * 3)%nat by lia.
  rewrite Nat.div_add by lia. lia.
Qed.

Lemma b64_char_is_base64 v : sextet v -> is_base64_char (b64_char v) = true.
Proof. intros H. unfold is_base64_char. now rewrite b64_value_char. Qed.

Lemma b64_encode_chars l :
  Forall octet l -> Forall (fun c => is_base64_char c = true) (b64_encode l).
Proof.
  intros H. rewrite b64_encode_split. apply Forall_app. split.
  - apply Forall_map. eapply Forall_impl; [|apply sextets_range, H].
    intros v Hv. now apply b64_char_is_base64.
  - destruct (encoding_shape l) as [[-> _] | [[-> _] | [-> _]]]; repeat constructor.
Qed.

(** X4.  For [n] octets within the engine's limit on arguments,
    [bytesToBase64] returns a text of [4 * ceil(n / 3)] characters, each
    of the base64 alphabet or the padding character; beyond the limit
    it returns no text and throws a [RangeError]. *)
Theorem bytesToBase64_shape (eng : Engine) b :
  (Z.of_nat (length b) <= max_arguments ->
   exists s,
     bytesToBase64 b = Ok s
     /\ length s = (4 * ((length b + 2) / 3))%nat
     /\ Forall (fun c => is_base64_char c = true) s)
  /\ (max_arguments < Z.of_nat (length b) -> bytesToBase64 b = Throw RangeError).
Proof.
  split; [|apply bytesToBase64_too_long].
  intros H. exists (enc64 b). split; [now apply bytesToBase64_ok|]. unfold enc64. split.
  - now rewrite b64_encode_length, length_map.
  - apply b64_encode_chars, octets_byte_val.
Qed.

Lemma strip_padding_keeps c l : In c l -> c <> b64_pad -> In c (strip_padding l).
Proof.
  intros Hin Hc. unfold strip_padding.
  destruct (_ =? 0); [|exact Hin].
  assert (Hr : In c (rev l)) by now apply in_rev in Hin.
  destruct (rev l) as [|c1 r1]; [exact Hin|].
  destruct (Z.eqb_spec c1 b64_pad) as [E1|E1]; [|exact Hin].
  destruct Hr as [-> | Hr]; [contradiction|].
  destruct r1 as [|c2 r2]; [destruct Hr|].
  destruct (Z.eqb_spec c2 b64_pad) as [E2|E2].
  - destruct Hr as [-> | Hr]; [contradiction|]. now apply in_rev in Hr.
  - now apply in_rev in Hr.
Qed.

Lemma b64_values_None c l : In c l -> b64_value c = None -> b64_values l = None.
Proof.
  intros Hin Hc. induction l as [|x l IH]; [destruct Hin|].
  cbn [b64_values]. destruct Hin as [-> | Hin].
  - now rewrite Hc.
  - rewrite (IH Hin). now destruct (b64_value x).
Qed.

Lemma atob_throws c s :
  In c s -> b64_value c = None -> is_ascii_whitespace c = false -> c <> b64_pad ->
  atob s = Throw InvalidCharacterError.
Proof.
  intros Hin Hv Hw Hp. unfold atob.
  set (data := strip_padding _).
  assert (Hd : In c data).
  { apply strip_padding_keeps; [|exact Hp]. apply filter_In. now rewrite Hw. }
  destruct (_ =? 1); [reflexivity|].
  now rewrite (b64_values_None c data Hd Hv).
Qed.

(** ** Decryption *)

Section WithSubtle.
Context {sc : SubtleCrypto}.

(** [decryptMessage], case by case. *)
Lemma decryptMessage_cases c i s e r :
  decryptMessage c i s e r =
  (match base64ToBytes s with
   | Throw x => Throw x
   | Ok sb =>
       match base64ToBytes i with
       | Throw x => Throw x
       | Ok ib =>
           match base64ToBytes c with
           | Throw x => Throw x
           | Ok cb =>
               match AES_GCM_decrypt (HKDF_SHA256 (hexToBytes e) sb HKDF_info 32) ib cb with
               | Some p => Ok (TextDecoder_decode p)
               | None => Throw OperationError
               end
           end
       end
   end, r).
Proof.
  unfold decryptMessage. unfold bindM at 1. unfold lift at 1.
  destruct (base64ToBytes s) as [sb|x]; [|reflexivity].
  unfold bindM at 1. rewrite deriveKey_with_salt.
  unfold bindM at 1. unfold lift at 1.
  destruct (base64ToBytes i) as [ib|x]; [|reflexivity].
  unfold bindM at 1. unfold lift at 1.
  destruct (base64ToBytes c) as [cb|x]; [|reflexivity].
  unfold bindM, lift, ret. rewrite subtle_decrypt_derived.
  now destruct (AES_GCM_decrypt _ _ _).
Qed.

Lemma decryptFile_cases blob i s e r :
  decryptFile blob i s e r =
  (match base64ToBytes s with
   | Throw x => Throw x
   | Ok sb =>
       match base64ToBytes i with
       | Throw x => Throw x
       | Ok ib =>
           match AES_GCM_decrypt (HKDF_SHA256 (hexToBytes e) sb HKDF_info 32) ib blob with
           | Some p => Ok p
           | None => Throw OperationError
           end
       end
   end, r).
Proof.
  unfold decryptFile. unfold bindM at 1. unfold lift at 1.
  destruct (base64ToBytes s) as [sb|x]; [|reflexivity].
  unfold bindM at 1. rewrite deriveKey_with_salt.
  unfold bindM at 1. unfold lift at 1.
  destruct (base64ToBytes i) as [ib|x]; [|reflexivity].
  unfold lift. now rewrite subtle_decrypt_derived.
Qed.

End WithSubtle.

(** X5.  When AES-GCM does not authenticate the ciphertext under the key
    derived from the entropy and the salt, [decryptMessage] and
    [decryptFile] throw an [OperationError]: no text and no bytes are
    returned.  The random generator is not touched. *)
Theorem decrypt_unauthenticated (sc : SubtleCrypto) c i s e cb ib sb r :
  base64ToBytes s = Ok sb -> base64ToBytes i = Ok ib -> base64ToBytes c = Ok cb ->
  AES_GCM_decrypt (HKDF_SHA256 (hexToBytes e) sb HKDF_info 32) ib cb = None ->
  decryptMessage c i s e r = (Throw OperationError, r)
  /\ decryptFile cb i s e r = (Throw OperationError, r).
Proof.
  intros Hs Hi Hc Hd. rewrite decryptMessage_cases, decryptFile_cases.
  now rewrite Hs, Hi, Hc, Hd.
Qed.

Lemma decrypt_unauthenticated_witness :
  decryptMessage (sc := demo_subtle) [] [] [] demo_entropy demo_rng
  = (Throw OperationError, demo_rng).
Proof.
  exact (proj1 (decrypt_unauthenticated demo_subtle [] [] [] demo_entropy [] [] []
                  demo_rng eq_refl eq_refl eq_refl eq_refl)).
Defined.

(** X6.  A text that holds a character outside the base64 alphabet,
    other than white space and "=", is refused by [base64ToBytes] with
    an [InvalidCharacterError]; [decryptMessage] and [decryptFile] given
    such a salt throw that error whatever their other arguments, and so
    does [decryptMessage] given such an IV or ciphertext beside a
    well-formed salt. *)
Theorem malformed_base64_refused (sc : SubtleCrypto) bad s :
  In bad s -> b64_value bad = None -> is_ascii_whitespace bad = false ->
  bad <> b64_pad ->
  base64ToBytes s = Throw InvalidCharacterError
  /\ (forall c i e r,
        decryptMessage c i s e r = (Throw InvalidCharacterError, r)
        /\ decryptFile (map ToUint8 c) i s e r = (Throw InvalidCharacterError, r))
  /\ (forall c salt e r,
        decryptMessage c s (enc64 salt) e r = (Throw InvalidCharacterError, r))
  /\ (forall i salt e r,
        decryptMessage s (enc64 i) (enc64 salt) e r = (Throw InvalidCharacterError, r)).
Proof.
  intros Hin Hv Hw Hp.
  assert (Hs : base64ToBytes s = Throw InvalidCharacterError).
  { unfold base64ToBytes. now rewrite (atob_throws bad s Hin Hv Hw Hp). }
  split; [exact Hs|]. split; [|split].
  - intros c i e r. rewrite decryptMessage_cases, decryptFile_cases. now rewrite Hs.
  - intros c salt e r. rewrite decryptMessage_cases.
    now rewrite base64ToBytes_enc64, Hs.
  - intros i salt e r. rewrite decryptMessage_cases.
    now rewrite !base64ToBytes_enc64, Hs.
Qed.

Lemma malformed_base64_refused_witness :
  base64ToBytes (js "ab*d") = Throw InvalidCharacterError.
Proof.
  refine (proj1 (malformed_base64_refused demo_subtle 42 (js "ab*d") _ eq_refl eq_refl _)).
  - cbn. tauto.
  - discriminate.
Defined.

(** X7.  Let HKDF return 32 octets when asked for 32, and AES-GCM
    decryption invert encryption.  For every file content (any byte
    sequence, the empty one included), every entropy string and every
    state of the generator, [encryptFile] returns an envelope, and
    [decryptFile] on its blob, iv and salt with the same entropy returns
    exactly the content. *)
Theorem file_round_trip (sc : SubtleCrypto) (eng : Engine)
    (Hsc : SubtleCrypto_laws sc) file e r :
  exists env r',
    encryptFile file e r = (Ok env, r')
    /\ forall r2,
         decryptFile (encryptedBlob env) (file_iv env) (file_salt env) e r2
         = (Ok file, r2).
Proof. now apply decrypt_encrypt_file. Qed.

Lemma file_round_trip_witness :
  exists env r',
    encryptFile (sc := demo_subtle) (eng := demo_engine) [x00; xff] demo_entropy demo_rng
    = (Ok env, r')
    /\ forall r2,
         decryptFile (sc := demo_subtle) (encryptedBlob env) (file_iv env)
           (file_salt env) demo_entropy r2
         = (Ok [x00; xff], r2).
Proof.
  exact (file_round_trip demo_subtle demo_engine demo_subtle_laws [x00; xff]
           demo_entropy demo_rng).
Defined.

(** ** The room key *)



(** ** The session-key variant *)

(** X9.  Session-key variant.  Let AES-GCM decryption invert encryption,
    and let [key] be a 256-bit AES-GCM key usable to encrypt and to
    decrypt.  [encryptMessage] draws a fresh 12-octet IV, returns a
    payload that carries the entropy source it was given, and
    [decryptMessage] of that payload under the same key returns the
    plaintext, provided the plaintext is well-formed UTF-16 and does not
    begin with U+FEFF. *)
Theorem session_round_trip (sc : SubtleCrypto) (Hsc : SubtleCrypto_laws sc)
    p key src r :
  SessionCrypto.session_key key ->
  isWellFormed p = true -> starts_with_BOM p = false ->
  exists payload,
    SessionCrypto.encryptMessage p key src r = (Ok payload, advance r 12)
    /\ SessionCrypto.entropySource payload = src
    /\ SessionCrypto.base64ToBuffer (SessionCrypto.iv payload) = Ok (rng_window r 0 12)
    /\ SessionCrypto.decryptMessage payload key = Ok p.
Proof.
  intros (Halg & Hlen & Henc & Hdec) Hwf Hbom.
  exists (SessionCrypto.mkPayload
            (enc64 (AES_GCM_encrypt (key_bytes key) (rng_window r 0 12)
                      (TextEncoder_encode p)))
            (enc64 (rng_window r 0 12)) src).
  split; [|split; [reflexivity|split; [apply base64ToBuffer_enc64|]]].
  - unfold SessionCrypto.encryptMessage, bindM, lift, ret, random, getRandomValues,
      subtle_encrypt.
    rewrite Halg, Henc. cbn [KeyAlgorithm_eqb andb].
    now rewrite !bufferToBase64_ok.
  - unfold SessionCrypto.decryptMessage. cbn [SessionCrypto.ciphertext SessionCrypto.iv].
    rewrite !base64ToBuffer_enc64. cbn [bind]. unfold subtle_decrypt.
    rewrite Halg, Hdec. cbn [KeyAlgorithm_eqb andb].
    rewrite (AEAD_correct sc Hsc) by (assumption || apply rng_window_length).
    cbn [bind]. now rewrite TextDecoder_TextEncoder, drop_BOM_id.
Qed.

Lemma session_round_trip_witness :
  exists payload,
    SessionCrypto.encryptMessage (sc := demo_subtle) (js "hello")
      (mkKey AES_GCM (repeat x07 32) false [encrypt; decrypt])
      SessionCrypto.hardware demo_rng
    = (Ok payload, advance demo_rng 12)
    /\ SessionCrypto.entropySource payload = SessionCrypto.hardware
    /\ SessionCrypto.base64ToBuffer (SessionCrypto.iv payload)
       = Ok (rng_window demo_rng 0 12)
    /\ SessionCrypto.decryptMessage (sc := demo_subtle) payload
         (mkKey AES_GCM (repeat x07 32) false [encrypt; decrypt])
       = Ok (js "hello").
Proof.
  refine (session_round_trip demo_subtle demo_subtle_laws (js "hello")
            (mkKey AES_GCM (repeat x07 32) false [encrypt; decrypt])
            SessionCrypto.hardware demo_rng _ eq_refl eq_refl).
  repeat split.
Defined.

(** X24.  Session-key variant, files.  Under the same assumptions on
    the key and the cipher, [encryptFile] draws a fresh 12-octet IV and
    [decryptFile] of the blob and IV it returned, under the same key,
    returns the file's bytes exactly. *)
Theorem session_file_round_trip (sc : SubtleCrypto) (Hsc : SubtleCrypto_laws sc)
    file key src r :
  SessionCrypto.session_key key ->
  exists ef,
    SessionCrypto.encryptFile file key src r = (Ok ef, advance r 12)
    /\ SessionCrypto.file_entropySource ef = src
    /\ SessionCrypto.base64ToBuffer (SessionCrypto.file_iv ef) = Ok (rng_window r 0 12)
    /\ SessionCrypto.decryptFile (SessionCrypto.encryptedBlob ef)
         (SessionCrypto.file_iv ef) key = Ok file.
Proof.
  intros (Halg & Hlen & Henc & Hdec).
  exists (SessionCrypto.mkEncryptedFile
            (AES_GCM_encrypt (key_bytes key) (rng_window r 0 12) file)
            (enc64 (rng_window r 0 12)) src).
  split; [|split; [reflexivity|split; [apply base64ToBuffer_enc64|]]].
  - unfold SessionCrypto.encryptFile, bindM, lift, ret, random, getRandomValues,
      subtle_encrypt.
    rewrite Halg, Henc. cbn [KeyAlgorithm_eqb andb].
    now rewrite !bufferToBase64_ok.
  - unfold SessionCrypto.decryptFile.
    cbn [SessionCrypto.encryptedBlob SessionCrypto.file_iv].
    rewrite base64ToBuffer_enc64. cbn [bind]. unfold subtle_decrypt.
    rewrite Halg, Hdec. cbn [KeyAlgorithm_eqb andb].
    now rewrite (AEAD_correct sc Hsc) by (assumption || apply rng_window_length).
Qed.

Lemma session_file_round_trip_witness :
  exists ef,
    SessionCrypto.encryptFile (sc := demo_subtle) [x00; xff]
      (mkKey AES_GCM (repeat x07 32) false [encrypt; decrypt])
      SessionCrypto.software demo_rng
    = (Ok ef, advance demo_rng 12)
    /\ SessionCrypto.file_entropySource ef = SessionCrypto.software
    /\ SessionCrypto.base64ToBuffer (SessionCrypto.file_iv ef)
       = Ok (rng_window demo_rng 0 12)
    /\ SessionCrypto.decryptFile (sc := demo_subtle) (SessionCrypto.encryptedBlob ef)
         (SessionCrypto.file_iv ef)
         (mkKey AES_GCM (repeat x07 32) false [encrypt; decrypt])
       = Ok [x00; xff].
Proof.
  refine (session_file_round_trip demo_subtle demo_subtle_laws [x00; xff]
            (mkKey AES_GCM (repeat x07 32) false [encrypt; decrypt])
            SessionCrypto.software demo_rng _).
  repeat split.
Defined.

End CryptoMoreFacts.

(* ===================================================================== *)
(** * functions/entropy: further properties *)
(* ===================================================================== *)

Module EntropyFnMoreFacts.
Import Platform.
Import EntropyFn.
Import EntropyFnMore.
Import PlatformFacts.
Import EntropyFnFacts.
Import Demo.

(** X10.  A payload whose length is not 32 is refused with 400 and the
    size error, and nothing changes: in the MongoDB-backed endpoint
    before the database is even reached (so also when it is down), and
    in the in-memory endpoint. *)
Theorem size_mismatch_refused (sc : Crypto.SubtleCrypto) bytes :
  length bytes <> 32%nat ->
  (forall env st,
      serve env (POST bytes) st
      = (mkResponse 400 (InvalidEntropySize (Z.of_nat (length bytes))), st))
  /\ (forall env st,
        EntropyMem.serve env (EntropyMem.POST_entropy bytes) st
        = (EntropyMem.mkResponse 400 EntropyMem.InvalidEntropySize, st)).
Proof.
  intros H. split; intros env st.
  - cbn [serve]. unfold handle_POST, ENTROPY_BYTES.
    now replace (Z.of_nat (length bytes) =? 32) with false by lia.
  - cbn [EntropyMem.serve]. unfold EntropyMem.handle_POST_entropy.
    now replace (Z.of_nat (length bytes) =? 32) with false by lia.
Qed.

Lemma size_mismatch_refused_witness :
  serve (mkEnv false 0 0) (POST []) (initial demo_rng)
  = (mkResponse 400 (InvalidEntropySize 0), initial demo_rng).
Proof.
  refine (proj1 (size_mismatch_refused Crypto.demo_subtle [] _) _ _). discriminate.
Defined.

(** ** What the collection holds *)

(** X11.  In every state the server reaches from an empty collection,
    every document is a Hardware sample holding 64 lower-case
    hexadecimal digits, which read back as 32 octets: Software values
    are never stored. *)
Theorem stored_documents st :
  reachable st ->
  Forall (fun d => source d = hardware
                   /\ length (entropy_hex d) = 64%nat
                   /\ Forall (fun c => TextShape.is_lower_hex c = true) (entropy_hex d)
                   /\ length (Crypto.hexToBytes (entropy_hex d)) = 32%nat)
         (entropy_log st).
Proof.
  intros Hr.
  eapply Forall_impl; [|apply (reachable_ingested st Hr)].
  intros d (Hs & bytes & Hlen & Hhex). rewrite Hhex.
  split; [exact Hs|]. split; [|split].
  - unfold hex_of. rewrite toHex_length. lia.
  - apply CryptoFacts.toHex_lower_hex.
  - now rewrite hexToBytes_hex_of.
Qed.

Lemma stored_documents_witness :
  Forall (fun d => source d = hardware
                   /\ length (entropy_hex d) = 64%nat
                   /\ Forall (fun c => TextShape.is_lower_hex c = true) (entropy_hex d)
                   /\ length (Crypto.hexToBytes (entropy_hex d)) = 32%nat)
    (entropy_log (snd (run [(at_time 0, POST payload_1_32); (at_time 5, GET);
                            (at_time 9, POST payload_33_64)] (initial demo_rng)))).
Proof.
  refine (stored_documents _ _).
  exists [(at_time 0, POST payload_1_32); (at_time 5, GET);
          (at_time 9, POST payload_33_64)], demo_rng. reflexivity.
Defined.

(** X12.  In a reachable state, with the database up, a 32-byte payload
    is refused as a replay (409, nothing changed) exactly when the
    collection holds that very payload; any other 32-byte payload is
    accepted (200) and becomes the last one held. *)
Theorem replay_iff_stored env bytes st :
  reachable st -> db_available env = true -> length bytes = 32%nat ->
  (In bytes (stored_payloads st) ->
   serve env (POST bytes) st = (mkResponse 409 ReplayedEntropy, st))
  /\ (~ In bytes (stored_payloads st) ->
      fst (serve env (POST bytes) st) = mkResponse 200 (EntropyAccepted 32)
      /\ stored_payloads (snd (serve env (POST bytes) st))
         = stored_payloads st ++ [bytes]).
Proof.
  intros Hr Hdb Hlen. pose proof (reachable_ingested st Hr) as Hing.
  rewrite Forall_forall in Hing. unfold stored_payloads. split.
  - intros Hin. apply in_map_iff in Hin as (d & Hd & Hin).
    apply POST_replayed; [assumption..|].
    destruct (Hing d Hin) as (_ & b' & _ & Hhex).
    rewrite Hhex in Hd. unfold hex_of in Hd.
    rewrite CryptoFacts.hexToBytes_bytesToHex in Hd. subst b'.
    rewrite <- Hhex. now apply in_map.
  - intros Hnot.
    assert (Hnew : findOne_hex (entropy_log st) (hex_of bytes) = None).
    { apply findOne_hex_None. intros Hin. apply Hnot.
      apply in_map_iff in Hin as (d & Hd & Hin). apply in_map_iff. exists d.
      split; [|exact Hin]. rewrite Hd. apply CryptoFacts.hexToBytes_bytesToHex. }
    rewrite (POST_accepted env bytes st Hdb Hlen Hnew). cbn [fst snd entropy_log].
    split; [reflexivity|]. rewrite map_app. cbn [map entropy_hex].
    unfold hex_of. now rewrite CryptoFacts.hexToBytes_bytesToHex.
Qed.

Lemma replay_iff_stored_witness :
  serve (at_time 7) (POST payload_1_32)
    (snd (run [(at_time 0, POST payload_1_32)] (initial demo_rng)))
  = (mkResponse 409 ReplayedEntropy,
     snd (run [(at_time 0, POST payload_1_32)] (initial demo_rng))).
Proof.
  refine (proj1 (replay_iff_stored (at_time 7) payload_1_32 _ _ eq_refl eq_refl) _).
  - exists [(at_time 0, POST payload_1_32)], demo_rng. reflexivity.
  - left. reflexivity.
Defined.

(** ** Which sample is issued *)

Lemma newest_max l d :
  (forall d', In d' l -> four_digit_year (created_at d')) ->
  newest l = Some d -> forall d', In d' l -> created_at d' <= created_at d.
Proof.
  revert d. induction l as [|d0 l IH]; cbn [newest]; [discriminate|].
  intros d Hy H d' Hin.
  assert (Hy' : forall x, In x l -> four_digit_year (created_at x))
    by (intros x Hx; apply Hy; now right).
  destruct (newest l) as [dn|] eqn:En.
  - rewrite text_ltb_iso in H by (apply Hy; first [now left | right; now apply newest_In]).
    destruct (Z.ltb_spec (created_at d0) (created_at dn)); injection H as <-.
    + destruct Hin as [<- | Hin]; [lia | now apply IH].
    + destruct Hin as [<- | Hin]; [lia|]. specialize (IH dn Hy' eq_refl d' Hin). lia.
  - injection H as <-. apply newest_None in En. subst l.
    destruct Hin as [<- | []]. lia.
Qed.

(** X13.  Let the database be up, and let the start of the freshness
    window and the dates of the stored samples lie in the years 0000 to
    9999.  Issuance answers Hardware exactly when the collection holds a
    sample that is unconsumed, Hardware and no older than 30 000 ms (the
    bound included); the sample it hands out is such a sample, and none
    of them is newer. *)
Theorem issuance_newest_first env st :
  db_available env = true ->
  four_digit_year (now env - 30000) ->
  (forall d, In d (entropy_log st) -> four_digit_year (created_at d)) ->
  ((exists d, In d (entropy_log st) /\ used d = false /\ source d = hardware
              /\ now env - 30000 <= created_at d) <->
   (exists h ts, body (fst (serve env GET st)) = Issued hardware h ts))
  /\ forall h ts,
       body (fst (serve env GET st)) = Issued hardware h ts ->
       exists d,
         In d (entropy_log st) /\ entropy_hex d = h /\ created_at d = ts
         /\ used d = false /\ source d = hardware /\ now env - 30000 <= ts
         /\ forall d', In d' (entropy_log st) ->
                       used d' = false -> source d' = hardware ->
                       now env - 30000 <= created_at d' ->
                       created_at d' <= ts.
Proof.
  intros Hdb Hcut Hdates.
  change 30000 with ENTROPY_MAX_AGE_MS in *.
  set (cutoff := now env - ENTROPY_MAX_AGE_MS) in *.
  assert (Hwin : forall d, In d (entropy_log st) ->
            (eligible cutoff d = true <->
             used d = false /\ source d = hardware /\ cutoff <= created_at d)).
  { intros d Hd. apply eligible_window; [exact Hcut | now apply Hdates]. }
  destruct (findOne_fresh (entropy_log st) cutoff) as [fresh|] eqn:Hf.
  - rewrite (GET_hardware env st fresh Hdb Hf). cbn [fst body].
    pose proof Hf as Hn. unfold findOne_fresh in Hn.
    apply findOne_fresh_Some in Hf as [Hin He].
    apply (Hwin fresh Hin) in He as (Hu & Hs & Hc).
    split.
    + split; [eauto | intros _; exists fresh; auto].
    + intros h ts [= <- <-]. exists fresh. repeat split; try assumption.
      intros d' Hd' Hu' Hs' Hc'.
      assert (Hy : forall x, In x (filter (eligible cutoff) (entropy_log st)) ->
                             four_digit_year (created_at x)).
      { intros x Hx. apply filter_In in Hx as [Hx _]. now apply Hdates. }
      apply (newest_max _ _ Hy Hn).
      apply filter_In. split; [exact Hd'|]. apply (Hwin d' Hd'). auto.
  - rewrite (GET_software env st Hdb Hf). cbn [fst body].
    pose proof (proj1 (findOne_fresh_None _ _) Hf) as Hnone.
    split.
    + split.
      * intros (d & Hin & He). apply (Hwin d Hin) in He.
        rewrite (Hnone d Hin) in He. discriminate.
      * intros (h & ts & H). discriminate.
    + intros h ts H. discriminate.
Qed.

Lemma issuance_newest_first_witness :
  let st := snd (run [(at_time 0, POST payload_1_32); (at_time 1000, POST payload_33_64)]
                     (initial demo_rng)) in
  exists h ts, body (fst (serve (at_time 31000) GET st)) = Issued hardware h ts.
Proof.
  intros st.
  refine (proj1 (proj1 (issuance_newest_first (at_time 31000) st eq_refl _ _)) _).
  - unfold four_digit_year, at_time. cbn [now]. lia.
  - intros d [<- | [<- | []]]; (split; [discriminate | reflexivity]).
  - exists (mkDoc 1 (hex_of payload_33_64) hardware false 1000).
    split; [right; left; reflexivity|]. repeat split. discriminate.
Defined.

(** At the turn of the year 10000 the texts no longer compare as the
    instants: a sample posted at that instant and asked for ten seconds
    later, well inside the window, is not found, and the answer is
    Software. *)
Example fresh_sample_missed :
  let posted := 253402300800000 in
  let st := snd (run [(at_time posted, POST payload_1_32)] (initial demo_rng)) in
  exists hex ts,
    body (fst (serve (at_time (posted + 10000)) GET st)) = Issued software hex ts.
Proof. eexists. eexists. vm_compute. reflexivity. Qed.

(** ** Where issued entropy comes from *)

Lemma serve_new_hex env req st h :
  In h (map entropy_hex (entropy_log (snd (serve env req st)))) ->
  In h (map entropy_hex (entropy_log st))
  \/ exists bytes, req = POST bytes /\ length bytes = 32%nat /\ h = hex_of bytes.
Proof.
  destruct req as [| bytes | |]; cbn [serve]; auto.
  - unfold handle_POST, ENTROPY_BYTES.
    destruct (Z.eqb_spec (Z.of_nat (length bytes)) 32) as [E|E]; cbn [negb]; auto.
    destruct (negb (db_available env)); auto.
    destruct (findOne_hex _ _); auto.
    cbn [snd entropy_log]. unfold insertOne. rewrite map_app. intros H.
    apply in_app_or in H as [H | [<- | []]]; [now left|].
    right. exists bytes. repeat split. lia.
  - unfold handle_GET.
    destruct (negb (db_available env)); auto.
    destruct (findOne_fresh _ _); cbn [snd entropy_log]; auto.
    rewrite updateOne_used_hex. auto.
Qed.

Lemma serve_issued_stored env req st h ts :
  body (fst (serve env req st)) = Issued hardware h ts ->
  In h (map entropy_hex (entropy_log st)).
Proof.
  destruct req as [| bytes | |]; cbn [serve fst body]; try discriminate.
  - unfold handle_POST.
    destruct (negb (Z.of_nat (length bytes) =? ENTROPY_BYTES)); [discriminate|].
    destruct (negb (db_available env)); [discriminate|].
    destruct (findOne_hex _ _); discriminate.
  - unfold handle_GET.
    destruct (negb (db_available env)); [discriminate|].
    destruct (findOne_fresh _ _) as [fresh|] eqn:Hf; cbn [fst body]; [|discriminate].
    intros [= <- <-]. apply findOne_fresh_Some in Hf as [Hin _]. now apply in_map.
Qed.

Lemma run_issued_origin reqs st h :
  In h (hardware_issued (fst (run reqs st))) ->
  In h (map entropy_hex (entropy_log st))
  \/ exists env bytes,
       In (env, POST bytes) reqs /\ length bytes = 32%nat /\ h = hex_of bytes.
Proof.
  revert st. induction reqs as [|[env req] rest IH]; intros st; [intros []|].
  rewrite run_cons. cbn [fst]. rewrite hardware_issued_cons.
  assert (Hrest : In h (hardware_issued (fst (run rest (snd (serve env req st))))) ->
                  In h (map entropy_hex (entropy_log st))
                  \/ exists env' bytes,
                       In (env', POST bytes) ((env, req) :: rest)
                       /\ length bytes = 32%nat /\ h = hex_of bytes).
  { intros Hh. destruct (IH _ Hh) as [Hs | (env' & bytes & Hin & Hl & E)].
    - destruct (serve_new_hex env req st h Hs) as [H | (bytes & -> & Hl & E)];
        [now left|].
      right. exists env, bytes. repeat split; auto. now left.
    - right. exists env', bytes. repeat split; auto. now right. }
  destruct (body (fst (serve env req st))) as [| | | | src h' ts | |] eqn:Hb; auto.
  destruct src; auto.
  intros [<- | Hh]; auto.
  left. now apply (serve_issued_stored env req st _ ts).
Qed.

(** X14.  In a run from an empty collection, every entropy value issued
    as Hardware is the digest of a 32-byte payload that a POST of the
    run submitted: issuance never invents Hardware entropy. *)
Theorem issued_entropy_was_ingested reqs r0 h :
  In h (hardware_issued (fst (run reqs (initial r0)))) ->
  exists env bytes,
    In (env, POST bytes) reqs /\ length bytes = 32%nat /\ h = hex_of bytes.
Proof.
  intros H. destruct (run_issued_origin reqs (initial r0) h H) as [[] | Hex].
  exact Hex.
Qed.

Lemma issued_entropy_was_ingested_witness :
  exists env bytes,
    In (env, POST bytes) [(at_time 0, POST payload_1_32); (at_time 1000, GET)]
    /\ length bytes = 32%nat /\ hex_of payload_1_32 = hex_of bytes.
Proof.
  refine (issued_entropy_was_ingested
            [(at_time 0, POST payload_1_32); (at_time 1000, GET)] demo_rng
            (hex_of payload_1_32) _).
  left. reflexivity.
Defined.

(** ** Issuance requests that overlap *)

Lemma updateOne_used_twice col id :
  updateOne_used (updateOne_used col id) id = updateOne_used col id.
Proof.
  induction col as [|d col IH]; cbn [updateOne_used]; [reflexivity|].
  destruct (Nat.eqb (doc_id d) id) eqn:E; cbn [updateOne_used doc_id].
  - now rewrite E.
  - now rewrite E, IH.
Qed.

(** X25.  The read and the write of an issuance are two operations on
    the collection.  When a second issuance request arrives while the
    first waits between its [findOne] and its [updateOne], and the
    newest fresh unconsumed sample is the same at both clocks, both
    requests are answered 200 with that one sample as Hardware; the
    collection ends as after a single issuance and the generator is not
    touched. *)
Theorem overlapping_issuance env1 env2 st fresh :
  db_available env1 = true -> db_available env2 = true ->
  findOne_fresh (entropy_log st) (now env1 - ENTROPY_MAX_AGE_MS) = Some fresh ->
  findOne_fresh (entropy_log st) (now env2 - ENTROPY_MAX_AGE_MS) = Some fresh ->
  schedule [Arrives env1 GET; Arrives env2 GET; Completes 0; Completes 0] [] st
  = ([mkResponse 200 (Issued hardware (entropy_hex fresh) (created_at fresh));
      mkResponse 200 (Issued hardware (entropy_hex fresh) (created_at fresh))],
     ([], mkState (updateOne_used (entropy_log st) (doc_id fresh)) (rng st))).
Proof.
  intros Hdb1 Hdb2 Hf1 Hf2. cbn [schedule start].
  rewrite Hdb1, Hf1. cbn [negb app]. rewrite Hdb2, Hf2. cbn [negb app take_out finish].
  cbn [entropy_log rng]. now rewrite updateOne_used_twice.
Qed.

Lemma overlapping_issuance_witness :
  let st := snd (run [(at_time 0, POST payload_1_32)] (initial demo_rng)) in
  map body
    (fst (schedule [Arrives (at_time 1000) GET; Arrives (at_time 1001) GET;
                    Completes 0; Completes 0] [] st))
  = [Issued hardware (hex_of payload_1_32) 0; Issued hardware (hex_of payload_1_32) 0].
Proof.
  intros st.
  exact (f_equal (fun out => map body (fst out))
           (overlapping_issuance (at_time 1000) (at_time 1001) st
              (mkDoc 0 (hex_of payload_1_32) hardware false 0)
              eq_refl eq_refl eq_refl eq_refl)).
Defined.


(** The in-memory endpoint answering 500 while it keeps the payload. *)
Example payload_held_after_500 :
  EntropyMem.serve (sc := Crypto.demo_subtle) (EntropyMem.mkEnv 7 7 false true)
    (EntropyMem.POST_entropy payload_1_32) (EntropyMem.mkState None [] demo_rng)
  = (EntropyMem.mkResponse 500 EntropyMem.ServerError,
     EntropyMem.mkState (Some (EntropyMem.mkLatest payload_1_32 7)) [] demo_rng).
Proof. reflexivity. Qed.

End EntropyFnMoreFacts.

(* ===================================================================== *)
(** * functions/entropy (in-memory variant): further properties *)
(* ===================================================================== *)

Module EntropyMemMoreFacts.
Import Platform.
Import Crypto.
Import EntropyMem.
Import EntropyMemMore.
Import Demo.

(** A payload that passes the checks is put in the slot; the answer is
    200, or 500 when the client of the log table cannot be created. *)
Lemma POST_entropy_accepted (sc : SubtleCrypto) env entropy st :
  length entropy = 32%nat ->
  forallb (fun b => byte_val b =? 0) entropy = false ->
  forallb (fun b => byte_val b =? 255) entropy = false ->
  serve env (POST_entropy entropy) st =
  if createClient_ok env then
    (mkResponse 200 (Received (hex_of (SHA256 entropy))),
     mkState (Some (mkLatest entropy (now env)))
             (if log_insert_ok env
              then entropy_log st ++ [mkRow (hex_of (SHA256 entropy)) true]
              else entropy_log st)
             (rng st))
  else
    (mkResponse 500 ServerError,
     mkState (Some (mkLatest entropy (now env))) (entropy_log st) (rng st)).
Proof.
  intros Hlen Hz Ho. cbn [serve]. unfold handle_POST_entropy.
  rewrite Hlen, Hz, Ho. now destruct (createClient_ok env).
Qed.



(** X16.  In-memory endpoint.  A sample serves one derived key at most:
    whatever the state, of two derive-key requests in a row (the clock
    not running backwards, no sample posted in between) the second
    answers source software. *)
Theorem derive_key_single_use (sc : SubtleCrypto) env1 env2 salt1 salt2 st :
  now env1 <= now env2 ->
  let st1 := snd (serve env1 (POST_derive_key salt1) st) in
  exists keyHex,
    body (fst (serve env2 (POST_derive_key salt2) st1)) = DerivedKey keyHex false.
Proof.
  intros Hle st1. subst st1. cbn [serve]. unfold handle_POST_derive_key.
  destruct (latestEntropy st) as [e|] eqn:El; cbn [isFresh].
  - destruct (Z.ltb_spec (now env1 - timestamp e) ENTROPY_FRESHNESS_MS) as [Hf|Hf];
      cbn [snd latestEntropy isFresh fst body].
    + eexists. reflexivity.
    + unfold getRandomValues. cbn [snd latestEntropy]. try rewrite El. cbn [isFresh].
      replace (now env2 - timestamp e <? ENTROPY_FRESHNESS_MS) with false by lia.
      cbn [fst body]. eexists. reflexivity.
  - unfold getRandomValues. cbn [snd latestEntropy]. try rewrite El. cbn [fst body].
    eexists. reflexivity.
Qed.

Lemma derive_key_single_use_witness :
  let st0 := snd (serve (sc := demo_subtle) (mkEnv 0 0 true true) (POST_entropy payload_1_32)
                    (mkState None [] demo_rng)) in
  let st1 := snd (serve (sc := demo_subtle) (mkEnv 10 10 true true) (POST_derive_key None) st0) in
  exists keyHex,
    body (fst (serve (sc := demo_subtle) (mkEnv 20 20 true true) (POST_derive_key None) st1))
    = DerivedKey keyHex false.
Proof.
  intros st0 st1.
  refine (derive_key_single_use demo_subtle (mkEnv 10 10 true true) (mkEnv 20 20 true true)
            None None st0 _).
  cbn. lia.
Defined.

(** X17.  In-memory endpoint.  After a payload is accepted, the status
    request reports hardware and fresh exactly while the sample is
    younger than 60 000 ms, with the time it was received; it returns no
    entropy and changes nothing, so it does not consume the sample. *)
Theorem status_freshness (sc : SubtleCrypto) env0 env1 entropy st :
  length entropy = 32%nat ->
  forallb (fun b => byte_val b =? 0) entropy = false ->
  forallb (fun b => byte_val b =? 255) entropy = false ->
  let st0 := snd (serve env0 (POST_entropy entropy) st) in
  let fresh := now env1 - now env0 <? 60000 in
  serve env1 GET_entropy st0 =
  (mkResponse 200
     (EntropyStatus fresh fresh (Some (now env0)) (Some (now_again env1 - now env0))),
   st0).
Proof.
  intros Hlen Hz Ho st0 fresh. subst st0.
  rewrite (POST_entropy_accepted sc env0 entropy st Hlen Hz Ho).
  now destruct (createClient_ok env0).
Qed.

Lemma status_freshness_witness :
  let st0 := snd (serve (sc := demo_subtle) (mkEnv 0 0 true true) (POST_entropy payload_1_32)
                    (mkState None [] demo_rng)) in
  serve (sc := demo_subtle) (mkEnv 60000 60001 true true) GET_entropy st0 =
  (mkResponse 200 (EntropyStatus false false (Some 0) (Some 60001)), st0).
Proof.
  intros st0.
  exact (status_freshness demo_subtle (mkEnv 0 0 true true) (mkEnv 60000 60001 true true)
           payload_1_32 (mkState None [] demo_rng) eq_refl eq_refl eq_refl).
Defined.

End EntropyMemMoreFacts.

(* ===================================================================== *)
(** * The client: cache, status probe and chat; further properties *)
(* ===================================================================== *)

Module ClientFacts.
Import Platform.
Import Crypto.
Import EntropyCache.
Import Client.
Import PlatformFacts.
Import CryptoFacts.
Import Demo.

(** ** The cache *)

Section CacheMore.
Variable Date_getTime : jsstring -> option Z.
Variable toISOString : Z -> jsstring.

(** X18.  After a miss answered by the endpoint, the answer is
    memoized: a later call, made while the clock is less than 25 000 ms
    past the date of the answer's timestamp, returns the same source,
    entropy and timestamp with that age and makes no live call; from
    25 000 ms on, or when the timestamp is no date, it makes a live call
    again. *)
Theorem answer_memoized env1 env2 st d :
  ~ cache_hit Date_getTime env1 st -> live env1 = Answered d ->
  let st1 := snd (fetchEntropy Date_getTime toISOString env1 st) in
  (forall t, Date_getTime (data_timestamp d) = Some t ->
             now env2 - t < CACHE_TTL_MS ->
             fetchEntropy Date_getTime toISOString env2 st1
             = (mkStatus (data_source d) (data_entropy_hex d) (data_timestamp d)
                         (Some (now env2 - t)), st1))
  /\ ((Date_getTime (data_timestamp d) = None
       \/ exists t, Date_getTime (data_timestamp d) = Some t
                    /\ CACHE_TTL_MS <= now env2 - t) ->
      live_calls (snd (fetchEntropy Date_getTime toISOString env2 st1)) = S (S (live_calls st))).
Proof.
  intros Hmiss Hlive st1. subst st1.
  rewrite (EntropyCacheFacts.fetchEntropy_miss _ _ env1 st Hmiss).
  unfold refresh. rewrite Hlive. cbn [snd]. split.
  - intros t Ht Hlt. unfold fetchEntropy, age_of. cbn [cachedEntropy timestamp].
    rewrite Ht. cbn [option_map].
    now replace (now env2 - t <? CACHE_TTL_MS) with true by lia.
  - intros H. unfold fetchEntropy, age_of. cbn [cachedEntropy timestamp].
    destruct H as [-> | (t & -> & Hge)]; cbn [option_map].
    + unfold refresh. destruct (live env2); reflexivity.
    + replace (now env2 - t <? CACHE_TTL_MS) with false by lia.
      unfold refresh. destruct (live env2); reflexivity.
Qed.


(** X20.  After [clearEntropyCache] the next [fetchEntropy] makes a live
    call whatever the clock says, and returns a value of age 0; clearing
    touches neither the generator nor the count of calls. *)
Theorem clear_forces_live_call env st :
  let st0 := clearEntropyCache st in
  rng st0 = rng st /\ live_calls st0 = live_calls st
  /\ live_calls (snd (fetchEntropy Date_getTime toISOString env st0)) = S (live_calls st)
  /\ age_ms (fst (fetchEntropy Date_getTime toISOString env st0)) = Some 0.
Proof.
  intros st0. subst st0. unfold clearEntropyCache, fetchEntropy, refresh.
  cbn [cachedEntropy rng live_calls].
  destruct (live env); cbn; auto.
Qed.

End CacheMore.

Lemma answer_memoized_witness :
  let d := mkData hardware (js "cd") [1000] in
  let st := mkState None demo_rng 0 in
  let env1 := mkEnv 2000 (Answered d) 2000 in
  let st1 := snd (fetchEntropy demo_getTime demo_toISOString env1 st) in
  fetchEntropy demo_getTime demo_toISOString (mkEnv 9000 Failed 9000) st1
  = (mkStatus hardware (js "cd") [1000] (Some 8000), st1).
Proof.
  intros d st env1 st1.
  refine (proj1 (answer_memoized demo_getTime demo_toISOString env1
                   (mkEnv 9000 Failed 9000) st d _ eq_refl) 1000 eq_refl _).
  - intros (c & a & H & _). discriminate H.
  - reflexivity.
Defined.


(** ** The status probe and the issuance endpoint *)


Section Probe.
Variable Date_getTime : jsstring -> option Z.
Variable toISOString : Z -> jsstring.


End Probe.


(** ** The chat *)

Lemma ws_not_surrogate c :
  is_StrWhiteSpaceChar c = true ->
  is_lead_surrogate c = false /\ is_trail_surrogate c = false /\ 0 <= c < 65536.
Proof.
  unfold is_StrWhiteSpaceChar, is_lead_surrogate, is_trail_surrogate. lia.
Qed.

Lemma skip_ws_split s :
  exists pre, s = pre ++ skip_ws s /\ Forall (fun c => is_StrWhiteSpaceChar c = true) pre.
Proof.
  induction s as [|c s (pre & E & F)]; cbn [skip_ws].
  - exists []. split; [reflexivity | constructor].
  - destruct (is_StrWhiteSpaceChar c) eqn:W.
    + exists (c :: pre). split; [cbn [app]; now rewrite <- E | now constructor].
    + exists []. split; [reflexivity | constructor].
Qed.

Lemma skip_ws_head s c t : skip_ws s = c :: t -> is_StrWhiteSpaceChar c = false.
Proof.
  induction s as [|x s IH]; cbn [skip_ws]; [discriminate|].
  destruct (is_StrWhiteSpaceChar x) eqn:W; [exact IH|]. now intros [= <- _].
Qed.

(** The trimmed text is the input less white space before and after. *)
Lemma trim_split s :
  exists pre post,
    s = pre ++ trim s ++ post
    /\ Forall (fun c => is_StrWhiteSpaceChar c = true) pre
    /\ Forall (fun c => is_StrWhiteSpaceChar c = true) post
    /\ skip_ws s = trim s ++ post.
Proof.
  destruct (skip_ws_split s) as (pre & E & F).
  destruct (skip_ws_split (rev (skip_ws s))) as (q & Eq & Fq).
  exists pre, (rev q). unfold trim.
  assert (Hu : skip_ws s = rev (skip_ws (rev (skip_ws s))) ++ rev q).
  { rewrite <- rev_app_distr, <- Eq. now rewrite rev_involutive. }
  repeat split; [now rewrite <- Hu | exact F | now apply Forall_rev | exact Hu].
Qed.

Lemma wf_drop_prefix pre s :
  Forall (fun c => is_StrWhiteSpaceChar c = true) pre ->
  isWellFormed (pre ++ s) = true -> isWellFormed s = true.
Proof.
  induction 1 as [|c pre Hc _ IH]; [auto|].
  cbn [app]. rewrite isWellFormed_cons.
  destruct (ws_not_surrogate c Hc) as (-> & _ & _).
  rewrite !andb_true_iff. intros [_ H]. now apply IH.
Qed.

Lemma wf_drop_suffix s post :
  Forall (fun c => is_StrWhiteSpaceChar c = true) post ->
  isWellFormed (s ++ post) = true -> isWellFormed s = true.
Proof.
  intros Hpost.
  induction s as [| c | c d s IHs IHd] using list_ind2.
  - reflexivity.
  - cbn [app]. rewrite !isWellFormed_cons.
    destruct (is_lead_surrogate c).
    + destruct post as [|p post]; [discriminate|].
      inversion_clear Hpost as [|? ? Hp _].
      destruct (ws_not_surrogate p Hp) as (_ & -> & _). discriminate.
    + rewrite !andb_true_iff. intros [H _]. split; [exact H | reflexivity].
  - cbn [app]. rewrite !isWellFormed_cons.
    destruct (is_lead_surrogate c).
    + rewrite !andb_true_iff. intros [Ht H]. split; [exact Ht | now apply IHs].
    + rewrite !andb_true_iff. intros [Hc H]. split; [exact Hc|]. now apply IHd.
Qed.

Lemma trim_well_formed s : isWellFormed s = true -> isWellFormed (trim s) = true.
Proof.
  intros H. destruct (trim_split s) as (pre & post & E & Fpre & Fpost & _).
  rewrite E in H. apply wf_drop_prefix in H; [|exact Fpre].
  now apply wf_drop_suffix in H.
Qed.

Lemma trim_no_BOM s : starts_with_BOM (trim s) = false.
Proof.
  destruct (trim_split s) as (pre & post & _ & _ & _ & Hu).
  destruct (trim s) as [|c t]; [reflexivity|].
  cbn [app] in Hu. apply skip_ws_head in Hu.
  cbn [starts_with_BOM]. unfold BOM.
  destruct (Z.eqb_spec c 65279) as [->|]; [discriminate Hu | reflexivity].
Qed.

Lemma trim_blank s :
  Forall (fun c => is_StrWhiteSpaceChar c = true) s -> trim s = [].
Proof.
  intros H. unfold trim. replace (skip_ws s) with (@nil Z); [reflexivity|].
  symmetry. induction H as [|c s Hc _ IH]; cbn [skip_ws]; [reflexivity|].
  now rewrite Hc.
Qed.

Section ChatFacts.
Context {sc : SubtleCrypto} {eng : Engine}.
Variable Date_getTime : jsstring -> option Z.
Variable toISOString : Z -> jsstring.

(** X22.  Let HKDF return 32 octets when asked for 32, and AES-GCM
    decryption invert encryption.  For every well-formed input text
    whose trimmed form is not empty (a leading U+FEFF included: trimming
    removes it) and whose cipher text is within the engine's limit on
    arguments, whatever entropy [fetchEntropy] supplies, [handleSend]
    produces a message, and [decodeMsg] of that message shows exactly
    the trimmed text.  When the cipher text is beyond that limit the
    encryption throws and nothing is sent.  For an input of white space
    only nothing is sent, and neither the cache nor the endpoint is
    touched. *)
Theorem chat_round_trip (Hsc : SubtleCrypto_laws sc) inputText env st :
  isWellFormed inputText = true ->
  (trim inputText <> [] ->
   (forall k i,
       Z.of_nat (length (AES_GCM_encrypt k i (TextEncoder_encode (trim inputText))))
       <= max_arguments) ->
   exists msg st',
     handleSend Date_getTime toISOString inputText env st = (Some msg, st')
     /\ forall r2, decodeMsg msg r2 = trim inputText)
  /\ ((forall k i,
          max_arguments
          < Z.of_nat (length (AES_GCM_encrypt k i (TextEncoder_encode (trim inputText))))) ->
      fst (handleSend Date_getTime toISOString inputText env st) = None)
  /\ (Forall (fun c => is_StrWhiteSpaceChar c = true) inputText ->
      handleSend Date_getTime toISOString inputText env st = (None, st)).
Proof.
  intros Hwf. split; [|split].
  - intros Hne Hlen. unfold handleSend.
    pose proof (trim_well_formed _ Hwf) as Hwt.
    pose proof (trim_no_BOM inputText) as Hbt.
    destruct (trim inputText) as [|c t] eqn:Et; [congruence|].
    destruct (fetchEntropy Date_getTime toISOString env st) as [entropy st1].
    destruct (decrypt_encrypt_message Hsc (c :: t) (entropy_hex entropy) (rng st1)
                (Hlen _ _)) as (e & r' & He & Hd).
    rewrite He. eexists. eexists. split; [reflexivity|].
    intros r2. unfold decodeMsg.
    cbn [encrypted_payload payload_ciphertext payload_salt payload_entropy_hex msg_iv].
    now rewrite Hd, TextDecoder_TextEncoder, drop_BOM_id.
  - intros Hlong. unfold handleSend.
    destruct (trim inputText) as [|c t] eqn:Et; [reflexivity|].
    destruct (fetchEntropy Date_getTime toISOString env st) as [entropy st1].
    rewrite encryptMessage_eq. unfold message_cipher.
    specialize (Hlong (HKDF_SHA256 (hexToBytes (entropy_hex entropy))
                         (rng_window (rng st1) 0 32) HKDF_info 32)
                      (rng_window (rng st1) 32 12)).
    now replace (_ <=? _) with false by lia.
  - intros Hblank. unfold handleSend. now rewrite (trim_blank _ Hblank).
Qed.

End ChatFacts.

Lemma chat_round_trip_witness :
  exists msg st',
    handleSend (sc := demo_subtle) (eng := demo_engine) demo_getTime demo_toISOString
      (65279 :: js " hi ") (mkEnv 0 Failed 0) (mkState None demo_rng 0)
    = (Some msg, st')
    /\ forall r2, decodeMsg (sc := demo_subtle) msg r2 = js "hi".
Proof.
  refine (proj1 (chat_round_trip (sc := demo_subtle) (eng := demo_engine)
                   demo_getTime demo_toISOString
                   demo_subtle_laws (65279 :: js " hi ") (mkEnv 0 Failed 0)
                   (mkState None demo_rng 0) eq_refl) _ _).
  - discriminate.
  - intros k i. cbn. lia.
Defined.

End ClientFacts.
